(** * ipv4-calc: the address codec and the subnet engine

    A shallow embedding of [packages/core/src/ipUtils.ts] and of the
    [SubnetCalculator] class, with the properties the specification states
    about them.

    Layout: the fragment of JavaScript the code relies on (numbers, strings,
    the regular-expression matcher), then the functions of the source under
    their own names, then specification-side vocabulary, then the lemmas and
    the theorems. *)

From Stdlib Require Import ZArith List String Ascii Bool Lia QArith.
From Stdlib Require Import DecimalString.
From coqutil Require Import Z.bitblast.
Import ListNotations.

Local Open Scope string_scope.
Local Open Scope Z_scope.

(* ================================================================== *)
(** ** JavaScript numbers *)

(** The values of type [number] that the engine computes with: the
    integer-valued doubles, NaN and the two infinities.  The only fractions
    the source ever produces are the powers of two of [numberOfSubnets];
    that field is kept as a rational (see [SubnetInfo]).  Negative zero is
    identified with zero: nothing in the source tells them apart. *)
Inductive number : Type :=
| Int (z : Z)
| NaN
| PInf
| NInf.

(** Rounding of an exact integer to the nearest double, ties to even: a
    double holds 53 significant bits. *)
Definition round53 (z : Z) : Z :=
  let a := Z.abs z in
  if a <? 2 ^ 53 then z
  else
    let e := Z.log2 a - 52 in
    let q := a / 2 ^ e in
    let r := a mod 2 ^ e in
    let half := 2 ^ (e - 1) in
    let q' := if r <? half then q
              else if half <? r then q + 1
              else if Z.even q then q else q + 1 in
    Z.sgn z * (q' * 2 ^ e).

(** The double that an exact integer result becomes (overflow gives an
    infinity). *)
Definition of_exact (z : Z) : number :=
  let r := round53 z in
  if 2 ^ 1024 <=? r then PInf
  else if r <=? - 2 ^ 1024 then NInf
  else Int r.

(** [a + b] *)
Definition add (a b : number) : number :=
  match a, b with
  | NaN, _ | _, NaN => NaN
  | PInf, NInf | NInf, PInf => NaN
  | PInf, _ | _, PInf => PInf
  | NInf, _ | _, NInf => NInf
  | Int x, Int y => of_exact (x + y)
  end.

(** [- a] *)
Definition neg (a : number) : number :=
  match a with
  | Int x => Int (- x)
  | NaN => NaN
  | PInf => NInf
  | NInf => PInf
  end.

(** [a - b] *)
Definition sub (a b : number) : number := add a (neg b).

(** [a * b] *)
Definition mul (a b : number) : number :=
  match a, b with
  | NaN, _ | _, NaN => NaN
  | Int x, Int y => of_exact (x * y)
  | Int x, PInf | PInf, Int x =>
      if x =? 0 then NaN else if 0 <? x then PInf else NInf
  | Int x, NInf | NInf, Int x =>
      if x =? 0 then NaN else if 0 <? x then NInf else PInf
  | PInf, PInf | NInf, NInf => PInf
  | PInf, NInf | NInf, PInf => NInf
  end.

(** [a < b]; every comparison with NaN is false. *)
Definition lt (a b : number) : bool :=
  match a, b with
  | NaN, _ | _, NaN => false
  | Int x, Int y => x <? y
  | NInf, NInf => false
  | NInf, _ => true
  | _, PInf => match a with PInf => false | _ => true end
  | _, _ => false
  end.

(** [a > b] *)
Definition gt (a b : number) : bool := lt b a.

(** [a === b] on numbers *)
Definition strict_eq (a b : number) : bool :=
  match a, b with
  | Int x, Int y => x =? y
  | PInf, PInf | NInf, NInf => true
  | _, _ => false
  end.

(** [a >= b] *)
Definition ge (a b : number) : bool := lt b a || strict_eq a b.

(** ToUint32 and ToInt32 of the language: NaN and the infinities become 0,
    an integer is reduced modulo 2^32, into [0, 2^32) or [-2^31, 2^31). *)
Definition ToUint32 (a : number) : Z :=
  match a with
  | Int x => x mod 2 ^ 32
  | _ => 0
  end.

Definition wrap_int32 (z : Z) : Z := (z + 2 ^ 31) mod 2 ^ 32 - 2 ^ 31.

Definition ToInt32 (a : number) : Z :=
  match a with
  | Int x => wrap_int32 x
  | _ => 0
  end.

(** [a & b], [a | b]: both operands through ToInt32, a signed result. *)
Definition band (a b : number) : number := Int (Z.land (ToInt32 a) (ToInt32 b)).
Definition bor (a b : number) : number := Int (Z.lor (ToInt32 a) (ToInt32 b)).

(** [a << b]: the shift count is taken modulo 32 and the result is a signed
    32-bit integer. *)
Definition shl (a b : number) : number :=
  Int (wrap_int32 (Z.shiftl (ToInt32 a) (ToUint32 b mod 32))).

(** [a >>> b]: unsigned shift, the count taken modulo 32. *)
Definition shru (a b : number) : number :=
  Int (Z.shiftr (ToUint32 a) (ToUint32 b mod 32)).

(** Truthiness of a number, as in [while (bits)]. *)
Definition truthy (a : number) : bool :=
  match a with
  | Int x => negb (x =? 0)
  | NaN => false
  | _ => true
  end.

(** [Math.ceil(Math.log2(x))].  The source takes the logarithm in floating
    point; the model assumes what every engine delivers for it: the exact
    exponent at a power of two and a value strictly between the two
    neighbouring integers elsewhere.  Doubles have the precision for that up
    to 2^48; above it the logarithm of an integer just over a power of two
    can round down to the exponent itself, one less than the value given
    here.  Either way the result is then at least 48, and every caller only
    compares it with bounds below 33.  log2 of 0 is -Infinity, of a negative
    number NaN. *)
Definition Math_ceil_log2 (x : number) : number :=
  match x with
  | Int n => if 0 <? n then Int (Z.log2_up n)
             else if n =? 0 then NInf else NaN
  | NaN => NaN
  | PInf => PInf
  | NInf => NaN
  end.

(** [Math.pow(2, x)] at the exponents the engine passes through [number]:
    a non-negative integer, NaN or an infinity.  A negative integer
    exponent gives a fraction, which [number] does not hold; no call below
    reaches that case (lemmas [calculateNumberOfHosts_exponent] and
    [calculateSubnets_exponents]), and it is mapped to NaN here. *)
Definition Math_pow2 (x : number) : number :=
  match x with
  | Int e => if e <? 0 then NaN else of_exact (2 ^ e)
  | NaN => NaN
  | PInf => PInf
  | NInf => Int 0
  end.

(* ================================================================== *)
(** ** JavaScript strings *)

(** [s.split(sep)] for a one-character separator. *)
Fixpoint split (sep : ascii) (s : string) : list string :=
  match s with
  | EmptyString => [EmptyString]
  | String c s' =>
      if Ascii.eqb c sep then EmptyString :: split sep s'
      else match split sep s' with
           | h :: t => String c h :: t
           | [] => [String c EmptyString]
           end
  end.

(** [a.join(sep)] on an array of strings. *)
Fixpoint join (sep : string) (l : list string) : string :=
  match l with
  | [] => EmptyString
  | [x] => x
  | x :: t => (x ++ sep ++ join sep t)%string
  end.

(** Number to string in base ten, as [join] and template literals do it.
    (From 10^21 on the language prints an exponent; the engine prints
    octets, prefixes and their neighbours only.) *)
Definition toString (a : number) : string :=
  match a with
  | Int z => NilZero.string_of_int (Z.to_int z)
  | NaN => "NaN"
  | PInf => "Infinity"
  | NInf => "-Infinity"
  end.

(** [n.toString(2)] *)
Fixpoint bits_of_positive (p : positive) : string :=
  match p with
  | xH => "1"
  | xO p' => (bits_of_positive p' ++ "0")%string
  | xI p' => (bits_of_positive p' ++ "1")%string
  end.

Definition toString2 (a : number) : string :=
  match a with
  | Int 0 => "0"
  | Int (Zpos p) => bits_of_positive p
  | Int (Zneg p) => ("-" ++ bits_of_positive p)%string
  | NaN => "NaN"
  | PInf => "Infinity"
  | NInf => "-Infinity"
  end.

(** [s.padStart(n, c)] for a one-character filler. *)
Fixpoint replicate (n : nat) (c : ascii) : string :=
  match n with
  | O => EmptyString
  | S n' => String c (replicate n' c)
  end.

Definition padStart (n : nat) (c : ascii) (s : string) : string :=
  (replicate (n - String.length s) c ++ s)%string.

(** [parseInt(s, 10)]: leading white space, an optional sign, then the
    longest run of decimal digits; NaN when there is no digit. *)
Definition isWhite (c : ascii) : bool :=
  let n := nat_of_ascii c in
  ((9 <=? n) && (n <=? 13))%nat || (n =? 32)%nat.

Fixpoint skipWhite (s : string) : string :=
  match s with
  | String c s' => if isWhite c then skipWhite s' else s
  | EmptyString => s
  end.

Definition digitOf (c : ascii) : option Z :=
  let n := nat_of_ascii c in
  if ((48 <=? n) && (n <=? 57))%nat then Some (Z.of_nat n - 48) else None.

Fixpoint digitRun (s : string) (acc : option Z) : option Z :=
  match s with
  | String c s' =>
      match digitOf c with
      | Some d => digitRun s' (Some (10 * match acc with Some a => a | None => 0 end + d))
      | None => acc
      end
  | EmptyString => acc
  end.

Definition parseInt10 (s : string) : number :=
  let s1 := skipWhite s in
  let (negative, s2) :=
    match s1 with
    | String "-" r => (true, r)
    | String "+" r => (false, r)
    | _ => (false, s1)
    end in
  match digitRun s2 None with
  | Some z => of_exact (if negative then - z else z)
  | None => NaN
  end.

(* ================================================================== *)
(** ** Regular expressions *)

(** The constructs that the pattern of [isValidIPv4] uses: a literal
    character, a character range, concatenation, alternation and [?]. *)
Inductive regex : Type :=
| Chr (c : ascii)
| Rng (lo hi : ascii)
| Cat (r1 r2 : regex)
| Alt (r1 r2 : regex)
| Opt (r : regex).

(** The backtracking matcher of the language, in continuation-passing
    style: [run r s k] tries the ways [r] can consume a prefix of [s], in
    the order of the alternatives, and hands the rest to [k]. *)
Fixpoint run (r : regex) (s : string) (k : string -> bool) : bool :=
  match r with
  | Chr c =>
      match s with
      | String x s' => if Ascii.eqb x c then k s' else false
      | EmptyString => false
      end
  | Rng lo hi =>
      match s with
      | String x s' =>
          if ((nat_of_ascii lo <=? nat_of_ascii x)
              && (nat_of_ascii x <=? nat_of_ascii hi))%nat
          then k s' else false
      | EmptyString => false
      end
  | Cat r1 r2 => run r1 s (fun rest => run r2 rest k)
  | Alt r1 r2 => run r1 s k || run r2 s k
  | Opt r1 => run r1 s k || k s
  end.

(** [/^r$/.test(s)] *)
Definition test (r : regex) (s : string) : bool :=
  run r s (fun rest => match rest with EmptyString => true | _ => false end).

(* ================================================================== *)
(** ** Outcomes *)

(** The [throw new Error(...)] sites of the source, one constructor per
    message. *)
Inductive Error : Type :=
| InvalidIPv4Address (ip : string)      (* parseIPv4 *)
| InvalidCIDRPrefix (cidr : number)     (* cidrToSubnetMask *)
| InvalidSubnetMask (mask : string)     (* subnetMaskToCIDR, calculate *)
| InvalidIPAddress (ip : string)        (* calculate *)
| TooManySubnets (desired : number)     (* calculateSubnets: beyond /30 *)
| HostCountTooLarge.                    (* calculateSubnetMaskFromHostCount *)

(** A call returns, throws, or exhausts the fuel given to one of its
    loops. *)
Inductive result (A : Type) : Type :=
| Return (a : A)
| Throw (e : Error)
| OutOfFuel.

Arguments Return {A} a.
Arguments Throw {A} e.
Arguments OutOfFuel {A}.

Definition bind {A B : Type} (m : result A) (f : A -> result B) : result B :=
  match m with
  | Return a => f a
  | Throw e => Throw e
  | OutOfFuel => OutOfFuel
  end.

Notation "x <- m ;; k" := (bind m (fun x => k))
  (at level 61, m at next level, right associativity).

(* ================================================================== *)
(** ** ipUtils.ts *)

Definition digit : regex := Rng "0" "9".

(** [(25[0-5]|2[0-4][0-9]|[01]?[0-9][0-9]?)] *)
Definition octetPattern : regex :=
  Alt (Cat (Chr "2") (Cat (Chr "5") (Rng "0" "5")))
      (Alt (Cat (Chr "2") (Cat (Rng "0" "4") digit))
           (Cat (Opt (Rng "0" "1")) (Cat digit (Opt digit)))).

(** The pattern of [isValidIPv4], between [^] and [$]. *)
Definition pattern : regex :=
  Cat octetPattern (Cat (Chr ".")
  (Cat octetPattern (Cat (Chr ".")
  (Cat octetPattern (Cat (Chr ".") octetPattern))))).

Definition isValidIPv4 (ip : string) : bool := test pattern ip.

(** [s.split('.').map(o => parseInt(o, 10))] *)
Definition octetsOf (s : string) : list number :=
  map parseInt10 (split "." s).

(** [a[i]] where the element is used as an operand of a bit operation or of
    an addition: a missing element is [undefined], which those operations
    treat as they treat NaN. *)
Definition at_ (a : list number) (i : nat) : number := nth i a NaN.

Record IPv4Address : Type := {
  address : string;
  octets : list number;
  binaryOctets : list string;
  decimalValue : number
}.

Definition parseIPv4 (ip : string) : result IPv4Address :=
  if negb (isValidIPv4 ip) then Throw (InvalidIPv4Address ip)
  else
    let octets := octetsOf ip in
    let binaryOctets := map (fun octet => padStart 8 "0" (toString2 octet)) octets in
    let decimalValue :=
      bor (bor (bor (shl (at_ octets 0) (Int 24))
                    (shl (at_ octets 1) (Int 16)))
               (shl (at_ octets 2) (Int 8)))
          (at_ octets 3) in
    Return {| address := ip;
              octets := octets;
              binaryOctets := binaryOctets;
              decimalValue := decimalValue |}.

(** The four bytes of a 32-bit quantity, most significant first, as both
    [cidrToSubnetMask] and [addToIP] print them. *)
Definition bytesOf (x : number) : list number :=
  [ band (shru x (Int 24)) (Int 255);
    band (shru x (Int 16)) (Int 255);
    band (shru x (Int 8)) (Int 255);
    band x (Int 255) ].

Definition cidrToSubnetMask (cidr : number) : result string :=
  if lt cidr (Int 0) || gt cidr (Int 32) then Throw (InvalidCIDRPrefix cidr)
  else
    let mask := Int 4294967295 in
    let mask := if lt cidr (Int 32) then shl mask (sub (Int 32) cidr) else mask in
    Return (join "." (map toString (bytesOf mask))).

(** The inner loop of [subnetMaskToCIDR]:
    [while (bits) { cidr += bits & 1; bits >>>= 1; }].  The counter only
    ever receives 0 or 1 and is kept as an integer. *)
Fixpoint countBits (fuel : nat) (bits : number) (cidr : Z) : result Z :=
  match fuel with
  | O => OutOfFuel
  | S fuel' =>
      if truthy bits
      then countBits fuel' (shru bits (Int 1)) (cidr + Z.land (ToInt32 bits) 1)
      else Return cidr
  end.

(** The loop [for (const octet of octets)] around it.  After one step
    [bits] is an unsigned 32-bit value, so 33 steps always suffice
    ([countBits_returns]). *)
Fixpoint countOctets (octets : list number) (cidr : Z) : result Z :=
  match octets with
  | [] => Return cidr
  | octet :: rest =>
      cidr' <- countBits 33 octet cidr ;;
      countOctets rest cidr'
  end.

Definition subnetMaskToCIDR (subnetMask : string) : result Z :=
  if negb (isValidIPv4 subnetMask) then Throw (InvalidSubnetMask subnetMask)
  else countOctets (octetsOf subnetMask) 0.

Definition calculateWildcardMask (subnetMask : string) : string :=
  let octets := octetsOf subnetMask in
  join "." (map (fun octet => toString (sub (Int 255) octet)) octets).

(** [a.map((x, index) => f x index)] *)
Fixpoint mapi_from {A B : Type} (i : nat) (f : A -> nat -> B) (a : list A) : list B :=
  match a with
  | [] => []
  | x :: t => f x i :: mapi_from (S i) f t
  end.

Definition mapi {A B : Type} (f : A -> nat -> B) (a : list A) : list B :=
  mapi_from 0 f a.

Definition calculateNetworkAddress (ip subnetMask : string) : string :=
  let ipOctets := octetsOf ip in
  let maskOctets := octetsOf subnetMask in
  join "." (map toString
    (mapi (fun octet index => band octet (at_ maskOctets index)) ipOctets)).

Definition calculateBroadcastAddress (networkAddress subnetMask : string) : string :=
  let networkOctets := octetsOf networkAddress in
  let maskOctets := octetsOf subnetMask in
  let wildcardOctets := map (fun o => sub (Int 255) o) maskOctets in
  join "." (map toString
    (mapi (fun octet index => bor octet (at_ wildcardOctets index)) networkOctets)).

(** [a[i] = f(a[i])] on a copy of the array.  Past the end the language
    extends the array: the slots in between stay empty and the new element
    is computed from [undefined] (NaN under [+=] and [-=]).  Empty slots
    are [None]. *)
Definition updateAt (i : nat) (f : number -> number) (a : list number)
  : list (option number) :=
  if (i <? List.length a)%nat
  then (firstn i (map Some a) ++ Some (f (at_ a i)) :: skipn (S i) (map Some a))%list
  else (map Some a ++ repeat None (i - List.length a) ++ [Some (f NaN)])%list.

(** [join] prints an empty slot as the empty string. *)
Definition slotToString (e : option number) : string :=
  match e with
  | Some x => toString x
  | None => EmptyString
  end.

Record HostRange : Type := {
  first : string;
  last : string
}.

Definition calculateHostRange (networkAddress broadcastAddress : string) : HostRange :=
  let networkOctets := octetsOf networkAddress in
  let broadcastOctets := octetsOf broadcastAddress in
  let firstOctets := updateAt 3 (fun o => add o (Int 1)) networkOctets in
  let lastOctets := updateAt 3 (fun o => sub o (Int 1)) broadcastOctets in
  {| first := join "." (map slotToString firstOctets);
     last := join "." (map slotToString lastOctets) |}.

Definition calculateNumberOfHosts (cidr : number) : number :=
  if ge cidr (Int 31) then (if strict_eq cidr (Int 31) then Int 2 else Int 1)
  else sub (Math_pow2 (sub (Int 32) cidr)) (Int 2).

Definition addToIP (ip : string) (value : number) : result string :=
  parsed <- parseIPv4 ip ;;
  let newDecimalValue := add (decimalValue parsed) value in
  Return (join "." (map toString (bytesOf newDecimalValue))).

(** [Math.abs] *)
Definition Math_abs (a : number) : number :=
  match a with
  | Int x => Int (Z.abs x)
  | NaN => NaN
  | _ => PInf
  end.

Definition ipDifference (ip1 ip2 : string) : result number :=
  parsed1 <- parseIPv4 ip1 ;;
  parsed2 <- parseIPv4 ip2 ;;
  Return (Math_abs (sub (decimalValue parsed1) (decimalValue parsed2))).

(* ================================================================== *)
(** ** The SubnetCalculator class *)

Record SubnetInfo : Type := {
  networkAddress : string;
  subnetMask : string;
  cidrNotation : string;
  wildcardMask : string;
  hostRange : HostRange;
  broadcastAddress : string;
  numberOfHosts : number;
  (** [Math.pow(2, cidr - originalCIDR)]: a power of two with an exponent
      between -24 and 24, so possibly a fraction; kept exact. *)
  numberOfSubnets : Q
}.

Record SubnetDetails : Type := {
  subnetId : number;
  subnetAddress : string;
  hostAddressRange : string;
  sdBroadcastAddress : string    (* the field broadcastAddress of SubnetDetails *)
}.

(** [SubnetCalculationResult extends SubnetInfo]: the fields of the
    SubnetInfo ([...subnetInfo]) and the list of members. *)
Record SubnetCalculationResult : Type := {
  info : SubnetInfo;
  subnetDetails : list SubnetDetails
}.

Definition calculate (ipAddress subnetMask : string) : result SubnetInfo :=
  if negb (isValidIPv4 ipAddress) then Throw (InvalidIPAddress ipAddress)
  else if negb (isValidIPv4 subnetMask) then Throw (InvalidSubnetMask subnetMask)
  else
    cidr <- subnetMaskToCIDR subnetMask ;;
    let wildcardMask := calculateWildcardMask subnetMask in
    let networkAddress := calculateNetworkAddress ipAddress subnetMask in
    let broadcastAddress := calculateBroadcastAddress networkAddress subnetMask in
    let hostRange := calculateHostRange networkAddress broadcastAddress in
    let numberOfHosts := calculateNumberOfHosts (Int cidr) in
    let firstOctet := parseInt10 (hd EmptyString (split "." networkAddress)) in
    let originalCIDR := 8 in
    let originalCIDR := if ge firstOctet (Int 128) then 16 else originalCIDR in
    let originalCIDR := if ge firstOctet (Int 192) then 24 else originalCIDR in
    let numberOfSubnets := Qpower 2 (cidr - originalCIDR) in
    Return {| networkAddress := networkAddress;
              subnetMask := subnetMask;
              cidrNotation := (networkAddress ++ "/" ++ toString (Int cidr))%string;
              wildcardMask := wildcardMask;
              hostRange := hostRange;
              broadcastAddress := broadcastAddress;
              numberOfHosts := numberOfHosts;
              numberOfSubnets := numberOfSubnets |}.

(** The body of the loop of [calculateSubnets] at index [i]. *)
Definition subnetMember (networkAddress : string) (subnetSize : number) (i : Z)
  : result SubnetDetails :=
  subnetAddress <- addToIP networkAddress (mul (Int i) subnetSize) ;;
  broadcastAddress <- addToIP subnetAddress (sub subnetSize (Int 1)) ;;
  firstHost <- addToIP subnetAddress (Int 1) ;;
  lastHost <- addToIP broadcastAddress (Int (-1)) ;;
  let hostRange := (firstHost ++ " - " ++ lastHost)%string in
  Return {| subnetId := add (Int i) (Int 1);
            subnetAddress := subnetAddress;
            hostAddressRange := hostRange;
            sdBroadcastAddress := broadcastAddress |}.

(** [for (let i = 0; i < actualSubnets; i++) { ...; subnetDetails.push(...) }].
    The counter is kept as an integer: the loop is only entered with at
    most 2^30 members, far below 2^53, where [i++] is exact. *)
Fixpoint subnetLoop (fuel : nat) (networkAddress : string)
    (subnetSize actualSubnets : number) (i : Z) (subnetDetails : list SubnetDetails)
  : result (list SubnetDetails) :=
  if lt (Int i) actualSubnets then
    match fuel with
    | O => OutOfFuel
    | S fuel' =>
        member <- subnetMember networkAddress subnetSize i ;;
        subnetLoop fuel' networkAddress subnetSize actualSubnets (i + 1)
                   (subnetDetails ++ [member])
    end
  else Return subnetDetails.

(** The trip count of that loop: the fuel it is given. *)
Definition tripCount (actualSubnets : number) : nat :=
  match actualSubnets with
  | Int n => Z.to_nat n
  | _ => O
  end.

Definition calculateSubnets (networkAddress subnetMask : string)
    (desiredSubnets : number) : result SubnetCalculationResult :=
  subnetInfo <- calculate networkAddress subnetMask ;;
  cidr <- subnetMaskToCIDR subnetMask ;;
  let additionalBits := Math_ceil_log2 desiredSubnets in
  let newCIDR := add (Int cidr) additionalBits in
  if gt newCIDR (Int 30) then Throw (TooManySubnets desiredSubnets)
  else
    newSubnetMask <- cidrToSubnetMask newCIDR ;;
    let subnetSize := Math_pow2 (sub (Int 32) newCIDR) in
    let actualSubnets := Math_pow2 additionalBits in
    subnetDetails <- subnetLoop (tripCount actualSubnets) networkAddress
                                subnetSize actualSubnets 0 [] ;;
    Return {| info := subnetInfo; subnetDetails := subnetDetails |}.

Definition calculateSubnetMaskFromHostCount (hostCount : number) : result string :=
  let hostBits := Math_ceil_log2 (add hostCount (Int 2)) in
  let cidr := sub (Int 32) hostBits in
  if lt cidr (Int 0) then Throw HostCountTooLarge
  else cidrToSubnetMask cidr.

(* ================================================================== *)
(** ** Specification vocabulary *)

(** The strings a star-free pattern can consume, listed: the language of
    the pattern. *)
Fixpoint lang (r : regex) : list string :=
  match r with
  | Chr c => [String c EmptyString]
  | Rng lo hi =>
      map (fun n => String (ascii_of_nat n) EmptyString)
          (seq (nat_of_ascii lo) (S (nat_of_ascii hi) - nat_of_ascii lo))
  | Cat r1 r2 => flat_map (fun p => map (String.append p) (lang r2)) (lang r1)
  | Alt r1 r2 => lang r1 ++ lang r2
  | Opt r1 => lang r1 ++ [EmptyString]
  end%list.

(** A string without the separator. *)
Fixpoint noDot (s : string) : bool :=
  match s with
  | EmptyString => true
  | String c s' => negb (Ascii.eqb c ".") && noDot s'
  end.

(** What one group of a valid address text is: free of dots and read by
    [parseInt10] as an integer from 0 to 255. *)
Definition isOctet (a : number) : bool :=
  match a with
  | Int o => (0 <=? o) && (o <=? 255)
  | _ => false
  end.

Definition okGroup (g : string) : bool := noDot g && isOctet (parseInt10 g).

(** Octet [i] of an address text, as an integer. *)
Definition octetZ (s : string) (i : nat) : Z :=
  match at_ (octetsOf s) i with
  | Int o => o
  | _ => 0
  end.

(** Four octets as one 32-bit value, most significant first. *)
Definition pack (a b c d : Z) : Z := a * 2 ^ 24 + b * 2 ^ 16 + c * 2 ^ 8 + d.

(** The 32-bit unsigned value of an address text. *)
Definition valueOf (s : string) : Z :=
  pack (octetZ s 0) (octetZ s 1) (octetZ s 2) (octetZ s 3).

(** Byte [k] of [v], counted from the least significant one. *)
Definition byte (v : Z) (k : Z) : Z := (v / 2 ^ (8 * k)) mod 256.

(** The canonical dotted-decimal text of a 32-bit value (of [v] modulo
    2^32 for any other integer). *)
Definition dotted (v : Z) : string :=
  join "." (map (fun k => toString (Int (byte v k))) [3; 2; 1; 0]).

(** The number of 1-bits among the [width] low bits of [v]. *)
Definition popcount (width : nat) (v : Z) : Z :=
  fold_right Z.add 0 (map (fun j => Z.b2z (Z.testbit v (Z.of_nat j))) (seq 0 width)).

(** The 32-bit complement. *)
Definition complement32 (m : Z) : Z := Z.lnot m mod 2 ^ 32.

(** The 32-bit value whose top [p] bits are 1 and whose other bits are 0. *)
Definition prefixMask (p : Z) : Z := 2 ^ 32 - 2 ^ (32 - p).

(** The integers from 0 to 255; computations over all octets run over this
    list. *)
Definition allOctets : list Z := map Z.of_nat (seq 0 256).

(** Boolean comparison of an outcome with an expected return value. *)
Definition result_eqb_Z (r : result Z) (z : Z) : bool :=
  match r with
  | Return x => x =? z
  | _ => false
  end.

Definition result_eqb_string (r : result string) (s : string) : bool :=
  match r with
  | Return x => String.eqb x s
  | _ => false
  end.

(** *** Checks that are run over every octet and every prefix *)

(** The text printed for octet [o] is a group of the pattern and is read
    back as [o]. *)
Definition formatsBack (o : Z) : bool :=
  existsb (String.eqb (toString (Int o))) (lang octetPattern)
  && strict_eq (parseInt10 (toString (Int o))) (Int o).

(** Four groups with their separators. *)
Definition dotted4 (a b c d : string) : string :=
  (a ++ String "." (b ++ String "." (c ++ String "." d)))%string.

(** The text the engine prints for four octets. *)
Definition print4 (o0 o1 o2 o3 : Z) : string :=
  join "." (map toString [Int o0; Int o1; Int o2; Int o3]).

(** The top octet lands on the sign bit: [o << 24] is negative from 128 on. *)
Definition signedOctet (o : Z) : Z := if o <? 128 then o else o - 256.

(** The prefixes from 1 to 32. *)
Definition allPrefixes : list Z := map Z.of_nat (seq 1 32).

(** The inner loop of [subnetMaskToCIDR] counts the 1-bits of octet [o]. *)
Definition countsOctet (o : Z) : bool :=
  result_eqb_Z (countBits 33 (Int o) 0) (popcount 8 o).

(** [cidrToSubnetMask p] prints the value with the top [p] bits set. *)
Definition masksPrefix (p : Z) : bool :=
  result_eqb_string (cidrToSubnetMask (Int p)) (dotted (prefixMask p)).

(** Prefix to mask and back gives [p]. *)
Definition roundTrips (p : Z) : bool :=
  result_eqb_Z (mask <- cidrToSubnetMask (Int p) ;; subnetMaskToCIDR mask) p.

(** Member [i] of a partition of blocks of [size] addresses from [base] on,
    as the specification describes it. *)
Definition expectedMember (base size i : Z) : SubnetDetails :=
  let network := (base + i * size) mod 2 ^ 32 in
  let broadcast := (network + (size - 1)) mod 2 ^ 32 in
  {| subnetId := Int (i + 1);
     subnetAddress := dotted network;
     hostAddressRange :=
       (dotted ((network + 1) mod 2 ^ 32) ++ " - "
        ++ dotted ((broadcast - 1) mod 2 ^ 32))%string;
     sdBroadcastAddress := dotted broadcast |}.

(** The indices [i], [i + 1], ..., [i + n - 1]. *)
Definition indicesFrom (i : Z) (n : nat) : list Z :=
  map (fun k => i + Z.of_nat k) (seq 0 n).

(** An exponent at which [Math_pow2] is exact about its kind of result:
    anything but a negative integer. *)
Definition notNegativeInt (x : number) : Prop :=
  match x with
  | Int e => 0 <= e
  | _ => True
  end.

(* ================================================================== *)
(** ** The remaining functions of ipUtils.ts and of SubnetCalculator *)

(** [isNaN(a)] *)
Definition isNaN (a : number) : bool :=
  match a with
  | NaN => true
  | _ => false
  end.

(** [a <= b] *)
Definition le (a b : number) : bool := ge b a.

Definition isValidCIDR (cidr : string) : bool :=
  let parts := split "/" cidr in
  if negb (List.length parts =? 2)%nat then false
  else
    let ipStr := nth 0 parts EmptyString in
    let prefixStr := nth 1 parts EmptyString in
    if negb (isValidIPv4 ipStr) then false
    else
      let prefix := parseInt10 prefixStr in
      negb (isNaN prefix) && ge prefix (Int 0) && le prefix (Int 32).

Definition ipToBinaryString (ip : string) : result string :=
  parsed <- parseIPv4 ip ;;
  Return (join EmptyString (binaryOctets parsed)).

(** What a call of [calculateFromCIDR] comes to: its own
    [throw new Error(`Invalid CIDR notation: ...`)], or the outcome of the
    calls it makes ([cidrToSubnetMask], then [calculate]). *)
Inductive cidrOutcome : Type :=
| InvalidCIDRNotation (cidr : string)
| Calculated (r : result SubnetInfo).

Definition calculateFromCIDR (cidr : string) : cidrOutcome :=
  if negb (isValidCIDR cidr) then InvalidCIDRNotation cidr
  else
    let parts := split "/" cidr in
    let ipAddress := nth 0 parts EmptyString in
    let prefixStr := nth 1 parts EmptyString in
    let prefix := parseInt10 prefixStr in
    Calculated (subnetMask <- cidrToSubnetMask prefix ;;
                calculate ipAddress subnetMask).

(** *** Vocabulary for their properties *)

(** A string without the character [c]. *)
Fixpoint freeOf (c : ascii) (s : string) : bool :=
  match s with
  | EmptyString => true
  | String x s' => negb (Ascii.eqb x c) && freeOf c s'
  end.

(** A decimal digit. *)
Definition isDigit (c : ascii) : bool :=
  ((48 <=? nat_of_ascii c) && (nat_of_ascii c <=? 57))%nat.

Fixpoint allDigits (s : string) : bool :=
  match s with
  | EmptyString => true
  | String c s' => isDigit c && allDigits s'
  end.

(** The value of a run of decimal digits. *)
Fixpoint decimalOf (s : string) (acc : Z) : Z :=
  match s with
  | EmptyString => acc
  | String c s' => decimalOf s' (10 * acc + (Z.of_nat (nat_of_ascii c) - 48))
  end.

(** One to three decimal digits with a value of at most 255. *)
Definition isGroup (g : string) : bool :=
  (1 <=? String.length g)%nat && (String.length g <=? 3)%nat
  && allDigits g && (decimalOf g 0 <=? 255).

(** The value of a string of binary digits: [None] when another character
    occurs. *)
Fixpoint bitsValue (s : string) (acc : Z) : option Z :=
  match s with
  | EmptyString => Some acc
  | String c s' =>
      if Ascii.eqb c "0" then bitsValue s' (2 * acc)
      else if Ascii.eqb c "1" then bitsValue s' (2 * acc + 1)
      else None
  end.

(** The ten digits, and the strings of one to three of them. *)
Definition digits : list ascii :=
  ["0"; "1"; "2"; "3"; "4"; "5"; "6"; "7"; "8"; "9"]%char.

Definition digitStrings : list string :=
  (map (fun a => String a EmptyString) digits
   ++ flat_map (fun a => map (fun b => String a (String b EmptyString)) digits) digits
   ++ flat_map (fun a => flat_map (fun b =>
        map (fun c => String a (String b (String c EmptyString))) digits) digits) digits)%list.

(** A group in the sense of [isGroup] is a group of the pattern. *)
Definition groupInPattern (g : string) : bool :=
  implb (isGroup g) (existsb (String.eqb g) (lang octetPattern)).

(** A group of the pattern is a group in the sense of [isGroup], free of
    slashes, and [parseInt10] reads its decimal value. *)
Definition patternGroupOk (g : string) : bool :=
  isGroup g && freeOf "/" g && strict_eq (parseInt10 g) (Int (decimalOf g 0)).

(** The text of octet [o] in [binaryOctets]: eight binary digits of value
    [o]. *)
Definition binaryOctetOk (o : Z) : bool :=
  let b := padStart 8 "0" (toString2 (Int o)) in
  (String.length b =? 8)%nat
  && match bitsValue b 0 with Some v => v =? o | None => false end.

(** The prefixes from 0 to 32 print without a slash and read back. *)
Definition prefixPrintOk (p : Z) : bool :=
  freeOf "/" (toString (Int p)) && strict_eq (parseInt10 (toString (Int p))) (Int p).


(* ================================================================== *)
(** * Lemmas *)

(** ** Strings *)

Lemma append_assoc (a b c : string) : ((a ++ b) ++ c = a ++ (b ++ c))%string.
Proof. induction a as [|x a IH]; simpl; [reflexivity | now rewrite IH]. Qed.

Lemma append_empty_r (a : string) : (a ++ EmptyString)%string = a.
Proof. induction a as [|x a IH]; simpl; [reflexivity | now rewrite IH]. Qed.

Lemma split_nonempty (sep : ascii) (s : string) : split sep s <> [].
Proof.
  induction s as [|c s IH]; simpl; [discriminate|].
  destruct (Ascii.eqb c sep); [discriminate|].
  destruct (split sep s); discriminate.
Qed.

Lemma split_noDot (g : string) : noDot g = true -> split "." g = [g].
Proof.
  induction g as [|c g IH]; simpl; [reflexivity|].
  intros H. apply andb_true_iff in H as [Hc Hg].
  apply negb_true_iff in Hc. rewrite Hc, (IH Hg). reflexivity.
Qed.

Lemma split_group (g rest : string) :
  noDot g = true ->
  split "." (g ++ String "." rest) = g :: split "." rest.
Proof.
  induction g as [|c g IH]; simpl; [reflexivity|].
  intros H. apply andb_true_iff in H as [Hc Hg].
  apply negb_true_iff in Hc. rewrite Hc, (IH Hg). reflexivity.
Qed.

(** ** The matcher against the language of a pattern *)

Lemma in_lang_Rng (lo hi x : ascii) :
  In (String x EmptyString) (lang (Rng lo hi)) <->
  ((nat_of_ascii lo <=? nat_of_ascii x) && (nat_of_ascii x <=? nat_of_ascii hi))%nat = true.
Proof.
  cbn [lang]. rewrite in_map_iff, andb_true_iff, !Nat.leb_le. split.
  - intros (n & E & Hn). apply in_seq in Hn.
    injection E as E. subst x.
    pose proof (nat_ascii_bounded hi).
    rewrite nat_ascii_embedding by lia. lia.
  - intros [H1 H2]. exists (nat_of_ascii x). split.
    + now rewrite ascii_nat_embedding.
    + apply in_seq. lia.
Qed.

Lemma lang_Rng_single (lo hi : ascii) (p : string) :
  In p (lang (Rng lo hi)) -> exists x, p = String x EmptyString.
Proof.
  cbn [lang]. rewrite in_map_iff. intros (n & E & _). eauto.
Qed.

Lemma in_lang_Cat (r1 r2 : regex) (p : string) :
  In p (lang (Cat r1 r2)) <->
  exists p1 p2, p = (p1 ++ p2)%string /\ In p1 (lang r1) /\ In p2 (lang r2).
Proof.
  simpl. rewrite in_flat_map. split.
  - intros (p1 & H1 & H). apply in_map_iff in H as (p2 & E & H2). eauto.
  - intros (p1 & p2 & E & H1 & H2). exists p1. split; [assumption|].
    apply in_map_iff. eauto.
Qed.

Theorem run_lang (r : regex) :
  forall (s : string) (k : string -> bool),
    run r s k = true <->
    exists p rest, In p (lang r) /\ s = (p ++ rest)%string /\ k rest = true.
Proof.
  induction r as [c | lo hi | r1 IH1 r2 IH2 | r1 IH1 r2 IH2 | r1 IH1]; intros s k.
  - simpl. split.
    + destruct s as [|x s]; [discriminate|].
      destruct (Ascii.eqb_spec x c) as [->|]; [|discriminate].
      intros Hk. exists (String c EmptyString), s. auto.
    + intros (p & rest & [<-|[]] & -> & Hk). simpl.
      now rewrite Ascii.eqb_refl.
  - split.
    + simpl run. destruct s as [|x s]; [discriminate|].
      destruct (_ && _)%bool eqn:E; [|discriminate].
      intros Hk. exists (String x EmptyString), s.
      split; [|auto]. now apply in_lang_Rng.
    + intros (p & rest & Hp & -> & Hk).
      destruct (lang_Rng_single _ _ _ Hp) as [x ->].
      apply in_lang_Rng in Hp. simpl. now rewrite Hp.
  - simpl run. rewrite IH1. split.
    + intros (p1 & rest1 & H1 & -> & H). apply IH2 in H as (p2 & rest & H2 & -> & Hk).
      exists (p1 ++ p2)%string, rest. split; [|split; [|assumption]].
      * apply in_lang_Cat. eauto.
      * now rewrite append_assoc.
    + intros (p & rest & Hp & -> & Hk).
      apply in_lang_Cat in Hp as (p1 & p2 & -> & H1 & H2).
      exists p1, (p2 ++ rest)%string. split; [assumption|]. split.
      * now rewrite append_assoc.
      * apply IH2. eauto.
  - simpl run. rewrite orb_true_iff, IH1, IH2. simpl lang. split.
    + intros [(p & rest & Hp & E & Hk) | (p & rest & Hp & E & Hk)];
        exists p, rest; rewrite in_app_iff; auto.
    + intros (p & rest & Hp & E & Hk). apply in_app_iff in Hp as [Hp|Hp]; eauto 6.
  - simpl run. rewrite orb_true_iff, IH1. simpl lang. split.
    + intros [(p & rest & Hp & E & Hk) | Hk].
      * exists p, rest. rewrite in_app_iff. auto.
      * exists EmptyString, s. rewrite in_app_iff. simpl. auto.
    + intros (p & rest & Hp & E & Hk). apply in_app_iff in Hp as [Hp|[<-|[]]].
      * left. eauto.
      * right. simpl in E. now subst.
Qed.

Lemma test_lang (r : regex) (s : string) :
  test r s = true <-> In s (lang r).
Proof.
  unfold test. rewrite run_lang. split.
  - intros (p & rest & Hp & -> & Hk). destruct rest; [|discriminate].
    now rewrite append_empty_r.
  - intros H. exists s, EmptyString. now rewrite append_empty_r.
Qed.

(** ** Octets, by enumeration *)

Lemma in_allOctets (o : Z) : 0 <= o <= 255 -> In o allOctets.
Proof.
  intros H. unfold allOctets. apply in_map_iff. exists (Z.to_nat o). split.
  - lia.
  - apply in_seq. lia.
Qed.

Lemma octet_cases (P : Z -> bool) :
  forallb P allOctets = true -> forall o, 0 <= o <= 255 -> P o = true.
Proof.
  intros H o Ho. rewrite forallb_forall in H. apply H, in_allOctets, Ho.
Qed.

Lemma strict_eq_Int (a : number) (o : Z) : strict_eq a (Int o) = true -> a = Int o.
Proof.
  destruct a; simpl; try discriminate. intros H. apply Z.eqb_eq in H. now subst.
Qed.

Lemma isOctet_Int (a : number) :
  isOctet a = true -> exists o, a = Int o /\ 0 <= o <= 255.
Proof.
  destruct a as [o| | |]; simpl; try discriminate.
  intros H. apply andb_true_iff in H as [H1 H2]. exists o. split; [reflexivity | lia].
Qed.

Lemma groups_ok : forallb okGroup (lang octetPattern) = true.
Proof. vm_compute. reflexivity. Qed.

Lemma group_ok (g : string) : In g (lang octetPattern) -> okGroup g = true.
Proof. pose proof groups_ok as H. rewrite forallb_forall in H. apply H. Qed.

Lemma octets_format_back : forallb formatsBack allOctets = true.
Proof. vm_compute. reflexivity. Qed.

Lemma toString_group (o : Z) :
  0 <= o <= 255 -> In (toString (Int o)) (lang octetPattern).
Proof.
  intros Ho. pose proof (octet_cases _ octets_format_back o Ho) as H.
  apply andb_true_iff in H as [H _]. apply existsb_exists in H as (g & Hg & E).
  apply String.eqb_eq in E. now subst.
Qed.

Lemma parseInt10_toString (o : Z) :
  0 <= o <= 255 -> parseInt10 (toString (Int o)) = Int o.
Proof.
  intros Ho. pose proof (octet_cases _ octets_format_back o Ho) as H.
  apply andb_true_iff in H as [_ H]. now apply strict_eq_Int.
Qed.

(** ** The shape of a valid address text *)

Lemma isValidIPv4_shape (s : string) :
  isValidIPv4 s = true <->
  exists a b c d,
    s = dotted4 a b c d /\
    In a (lang octetPattern) /\ In b (lang octetPattern) /\
    In c (lang octetPattern) /\ In d (lang octetPattern).
Proof.
  unfold isValidIPv4, pattern. rewrite test_lang. split.
  - intros H.
    apply in_lang_Cat in H as (a & r1 & -> & Ha & H).
    apply in_lang_Cat in H as (x1 & r2 & -> & [<-|[]] & H).
    apply in_lang_Cat in H as (b & r3 & -> & Hb & H).
    apply in_lang_Cat in H as (x2 & r4 & -> & [<-|[]] & H).
    apply in_lang_Cat in H as (c & r5 & -> & Hc & H).
    apply in_lang_Cat in H as (x3 & d & -> & [<-|[]] & Hd).
    exists a, b, c, d. auto.
  - intros (a & b & c & d & -> & Ha & Hb & Hc & Hd).
    apply in_lang_Cat. exists a. eexists. split; [reflexivity|]. split; [assumption|].
    apply in_lang_Cat. exists ".". eexists. split; [reflexivity|]. split; [now left|].
    apply in_lang_Cat. exists b. eexists. split; [reflexivity|]. split; [assumption|].
    apply in_lang_Cat. exists ".". eexists. split; [reflexivity|]. split; [now left|].
    apply in_lang_Cat. exists c. eexists. split; [reflexivity|]. split; [assumption|].
    apply in_lang_Cat. exists ".", d. split; [reflexivity|]. split; [now left | assumption].
Qed.

Lemma octetsOf_dotted4 (a b c d : string) :
  noDot a = true -> noDot b = true -> noDot c = true -> noDot d = true ->
  octetsOf (dotted4 a b c d) = [parseInt10 a; parseInt10 b; parseInt10 c; parseInt10 d].
Proof.
  intros Ha Hb Hc Hd. unfold octetsOf, dotted4.
  rewrite !split_group, split_noDot by assumption. reflexivity.
Qed.

(** A valid address text has four groups, each an integer from 0 to 255. *)
Lemma valid_octets (s : string) :
  isValidIPv4 s = true ->
  exists o0 o1 o2 o3,
    octetsOf s = [Int o0; Int o1; Int o2; Int o3] /\
    0 <= o0 <= 255 /\ 0 <= o1 <= 255 /\ 0 <= o2 <= 255 /\ 0 <= o3 <= 255.
Proof.
  intros H. apply isValidIPv4_shape in H as (a & b & c & d & -> & Ha & Hb & Hc & Hd).
  apply group_ok, andb_true_iff in Ha as [Na Pa].
  apply group_ok, andb_true_iff in Hb as [Nb Pb].
  apply group_ok, andb_true_iff in Hc as [Nc Pc].
  apply group_ok, andb_true_iff in Hd as [Nd Pd].
  rewrite octetsOf_dotted4 by assumption.
  apply isOctet_Int in Pa as (o0 & -> & ?), Pb as (o1 & -> & ?),
    Pc as (o2 & -> & ?), Pd as (o3 & -> & ?).
  exists o0, o1, o2, o3. auto.
Qed.

Lemma print4_dotted4 (o0 o1 o2 o3 : Z) :
  print4 o0 o1 o2 o3 =
  dotted4 (toString (Int o0)) (toString (Int o1)) (toString (Int o2)) (toString (Int o3)).
Proof. reflexivity. Qed.

Lemma print4_valid (o0 o1 o2 o3 : Z) :
  0 <= o0 <= 255 -> 0 <= o1 <= 255 -> 0 <= o2 <= 255 -> 0 <= o3 <= 255 ->
  isValidIPv4 (print4 o0 o1 o2 o3) = true.
Proof.
  intros H0 H1 H2 H3. rewrite print4_dotted4. apply isValidIPv4_shape.
  exists (toString (Int o0)), (toString (Int o1)), (toString (Int o2)), (toString (Int o3)).
  repeat split; try reflexivity; now apply toString_group.
Qed.

Lemma octetsOf_print4 (o0 o1 o2 o3 : Z) :
  0 <= o0 <= 255 -> 0 <= o1 <= 255 -> 0 <= o2 <= 255 -> 0 <= o3 <= 255 ->
  octetsOf (print4 o0 o1 o2 o3) = [Int o0; Int o1; Int o2; Int o3].
Proof.
  intros H0 H1 H2 H3. rewrite print4_dotted4.
  assert (N : forall o, 0 <= o <= 255 -> noDot (toString (Int o)) = true).
  { intros o Ho. apply toString_group, group_ok, andb_true_iff in Ho. tauto. }
  rewrite octetsOf_dotted4 by auto.
  now rewrite !parseInt10_toString.
Qed.

(** ** Numbers *)

Lemma round53_exact (z : Z) : Z.abs z < 2 ^ 53 -> round53 z = z.
Proof.
  intros H. unfold round53. apply Z.ltb_lt in H. now rewrite H.
Qed.

Lemma of_exact_Int (z : Z) : Z.abs z < 2 ^ 53 -> of_exact z = Int z.
Proof.
  intros H. unfold of_exact. rewrite round53_exact by assumption.
  assert (2 ^ 53 < 2 ^ 1024) by (apply Z.pow_lt_mono_r; lia).
  destruct (Z.leb_spec (2 ^ 1024) z); [lia|].
  destruct (Z.leb_spec z (- 2 ^ 1024)); [lia|]. reflexivity.
Qed.

Lemma add_Int (x y : Z) : Z.abs (x + y) < 2 ^ 53 -> add (Int x) (Int y) = Int (x + y).
Proof. intros H. simpl. now apply of_exact_Int. Qed.

Lemma sub_Int (x y : Z) : Z.abs (x - y) < 2 ^ 53 -> sub (Int x) (Int y) = Int (x - y).
Proof. intros H. unfold sub. simpl. now apply of_exact_Int. Qed.

Lemma mul_Int (x y : Z) : Z.abs (x * y) < 2 ^ 53 -> mul (Int x) (Int y) = Int (x * y).
Proof. intros H. simpl. now apply of_exact_Int. Qed.

Lemma wrap_int32_small (z : Z) : - 2 ^ 31 <= z < 2 ^ 31 -> wrap_int32 z = z.
Proof. intros H. unfold wrap_int32. rewrite Z.mod_small; lia. Qed.

Lemma wrap_int32_mod (z : Z) : wrap_int32 z mod 2 ^ 32 = z mod 2 ^ 32.
Proof. unfold wrap_int32. Z.div_mod_to_equations. lia. Qed.

Lemma wrap_int32_mod256 (z : Z) : wrap_int32 z mod 256 = z mod 256.
Proof. unfold wrap_int32. Z.div_mod_to_equations. lia. Qed.

Lemma land_255 (z : Z) : Z.land z 255 = z mod 256.
Proof. change 255 with (Z.ones 8). rewrite Z.land_ones by lia. reflexivity. Qed.

(** [x & 0xff] *)
Lemma band_255 (z : Z) : band (Int z) (Int 255) = Int (z mod 256).
Proof.
  unfold band, ToInt32. rewrite (wrap_int32_small 255) by lia.
  now rewrite land_255, wrap_int32_mod256.
Qed.

(** [x >>> k] for a literal count *)
Lemma shru_Int (z k : Z) :
  0 <= k < 32 -> shru (Int z) (Int k) = Int ((z mod 2 ^ 32) / 2 ^ k).
Proof.
  intros Hk. unfold shru, ToUint32.
  rewrite (Z.mod_small k (2 ^ 32)) by lia.
  rewrite (Z.mod_small k 32) by lia.
  now rewrite Z.shiftr_div_pow2 by lia.
Qed.

Lemma byte_mod32 (z k : Z) : 0 <= k <= 3 -> byte (z mod 2 ^ 32) k = byte z k.
Proof.
  intros Hk. unfold byte.
  assert (k = 0 \/ k = 1 \/ k = 2 \/ k = 3) as [-> | [-> | [-> | ->]]] by lia;
    cbn [Z.mul Pos.mul]; Z.div_mod_to_equations; lia.
Qed.

Lemma byte_range (z k : Z) : 0 <= byte z k <= 255.
Proof. unfold byte. pose proof (Z.mod_pos_bound (z / 2 ^ (8 * k)) 256). lia. Qed.

(** The four bytes that [cidrToSubnetMask] and [addToIP] print. *)
Lemma bytesOf_Int (z : Z) :
  bytesOf (Int z) = [Int (byte z 3); Int (byte z 2); Int (byte z 1); Int (byte z 0)].
Proof.
  unfold bytesOf. rewrite !shru_Int, !band_255 by lia.
  change ((z mod 2 ^ 32 / 2 ^ 24) mod 256) with (byte (z mod 2 ^ 32) 3).
  change ((z mod 2 ^ 32 / 2 ^ 16) mod 256) with (byte (z mod 2 ^ 32) 2).
  change ((z mod 2 ^ 32 / 2 ^ 8) mod 256) with (byte (z mod 2 ^ 32) 1).
  rewrite !byte_mod32 by lia.
  replace (z mod 256) with (byte z 0); [reflexivity|].
  unfold byte. change (2 ^ (8 * 0)) with 1. now rewrite Z.div_1_r.
Qed.

Lemma print_bytesOf (z : Z) :
  join "." (map toString (bytesOf (Int z))) = dotted z.
Proof. now rewrite bytesOf_Int. Qed.

Lemma dotted_print4 (z : Z) :
  dotted z = print4 (byte z 3) (byte z 2) (byte z 1) (byte z 0).
Proof. reflexivity. Qed.

(** ** Bytes of packed values *)

Lemma byte_pack (a b c d : Z) :
  0 <= a <= 255 -> 0 <= b <= 255 -> 0 <= c <= 255 -> 0 <= d <= 255 ->
  byte (pack a b c d) 3 = a /\ byte (pack a b c d) 2 = b /\
  byte (pack a b c d) 1 = c /\ byte (pack a b c d) 0 = d.
Proof.
  intros Ha Hb Hc Hd. unfold byte, pack. cbn [Z.mul Pos.mul].
  repeat split; Z.div_mod_to_equations; lia.
Qed.

Lemma pack_range (a b c d : Z) :
  0 <= a <= 255 -> 0 <= b <= 255 -> 0 <= c <= 255 -> 0 <= d <= 255 ->
  0 <= pack a b c d < 2 ^ 32.
Proof. unfold pack. lia. Qed.

Lemma pack_bytes (z : Z) :
  0 <= z < 2 ^ 32 -> pack (byte z 3) (byte z 2) (byte z 1) (byte z 0) = z.
Proof.
  intros H. unfold byte, pack. cbn [Z.mul Pos.mul].
  Z.div_mod_to_equations. lia.
Qed.

Lemma byte_as_bits (z k : Z) : 0 <= k -> byte z k = Z.land (Z.shiftr z (8 * k)) 255.
Proof.
  intros Hk. unfold byte. now rewrite land_255, Z.shiftr_div_pow2 by lia.
Qed.

Lemma byte_land (x y k : Z) :
  0 <= k -> byte (Z.land x y) k = Z.land (byte x k) (byte y k).
Proof.
  intros Hk. rewrite !byte_as_bits by assumption.
  rewrite Z.shiftr_land. Z.bitblast.
Qed.

Lemma byte_lor (x y k : Z) :
  0 <= k -> byte (Z.lor x y) k = Z.lor (byte x k) (byte y k).
Proof.
  intros Hk. rewrite !byte_as_bits by assumption.
  rewrite Z.shiftr_lor. Z.bitblast.
Qed.

Lemma byte_complement32 (m k : Z) :
  0 <= k <= 3 -> byte (complement32 m) k = 255 - byte m k.
Proof.
  intros Hk. unfold complement32. rewrite byte_mod32 by assumption.
  unfold byte, Z.lnot.
  assert (k = 0 \/ k = 1 \/ k = 2 \/ k = 3) as [-> | [-> | [-> | ->]]] by lia;
    cbn [Z.mul Pos.mul]; Z.div_mod_to_equations; lia.
Qed.

Lemma octet_land_range (a b : Z) : 0 <= a <= 255 -> 0 <= Z.land a b <= 255.
Proof.
  intros Ha. split.
  - apply Z.land_nonneg. lia.
  - assert (E : Z.land a b = Z.land (Z.land a b) 255).
    { replace a with (Z.land a 255) at 1.
      - Z.bitblast.
      - rewrite land_255. apply Z.mod_small. lia. }
    rewrite E, land_255. pose proof (Z.mod_pos_bound (Z.land a b) 256). lia.
Qed.

Lemma octet_lor_range (a b : Z) :
  0 <= a <= 255 -> 0 <= b <= 255 -> 0 <= Z.lor a b <= 255.
Proof.
  intros Ha Hb. split.
  - apply Z.lor_nonneg. lia.
  - assert (E : Z.lor a b = Z.land (Z.lor a b) 255).
    { replace a with (Z.land a 255) at 1; [replace b with (Z.land b 255) at 1|].
      - Z.bitblast.
      - rewrite land_255. apply Z.mod_small. lia.
      - rewrite land_255. apply Z.mod_small. lia. }
    rewrite E, land_255. pose proof (Z.mod_pos_bound (Z.lor a b) 256). lia.
Qed.

Lemma band_octets (a b : Z) :
  0 <= a <= 255 -> 0 <= b <= 255 -> band (Int a) (Int b) = Int (Z.land a b).
Proof. intros Ha Hb. unfold band, ToInt32. now rewrite !wrap_int32_small by lia. Qed.

Lemma bor_octets (a b : Z) :
  0 <= a <= 255 -> 0 <= b <= 255 -> bor (Int a) (Int b) = Int (Z.lor a b).
Proof. intros Ha Hb. unfold bor, ToInt32. now rewrite !wrap_int32_small by lia. Qed.

(** ** parseIPv4 *)

Lemma lor_disjoint (h l k : Z) :
  0 <= k -> 0 <= l < 2 ^ k -> Z.lor (h * 2 ^ k) l = h * 2 ^ k + l.
Proof.
  intros Hk Hl. apply Z.or_to_plus.
  rewrite <- Z.shiftl_mul_pow2 by assumption.
  rewrite <- (Z.mod_small l (2 ^ k)) by assumption.
  apply Z.bits_inj'. intros n Hn. rewrite Z.land_spec, Z.bits_0.
  destruct (Z.ltb_spec n k).
  - now rewrite Z.shiftl_spec_low.
  - rewrite Z.mod_pow2_bits_high by lia. apply andb_false_r.
Qed.

Lemma shl_octet (o k : Z) :
  0 <= o <= 255 -> 0 <= k <= 16 -> shl (Int o) (Int k) = Int (o * 2 ^ k).
Proof.
  intros Ho Hk. unfold shl, ToInt32, ToUint32.
  rewrite (Z.mod_small k (2 ^ 32)), (Z.mod_small k 32) by lia.
  rewrite (wrap_int32_small o) by lia.
  rewrite Z.shiftl_mul_pow2 by lia.
  assert (2 ^ k <= 2 ^ 16) by (apply Z.pow_le_mono_r; lia).
  rewrite wrap_int32_small; [reflexivity | nia].
Qed.

Lemma shl_24 (o : Z) :
  0 <= o <= 255 -> shl (Int o) (Int 24) = Int (signedOctet o * 2 ^ 24).
Proof.
  intros Ho. unfold shl, ToInt32, ToUint32.
  change (24 mod 2 ^ 32 mod 32) with 24.
  rewrite (wrap_int32_small o) by lia.
  rewrite Z.shiftl_mul_pow2 by lia.
  unfold signedOctet, wrap_int32. f_equal.
  destruct (Z.ltb_spec o 128); Z.div_mod_to_equations; lia.
Qed.

Lemma decimalValue_octets (o0 o1 o2 o3 : Z) :
  0 <= o0 <= 255 -> 0 <= o1 <= 255 -> 0 <= o2 <= 255 -> 0 <= o3 <= 255 ->
  bor (bor (bor (shl (Int o0) (Int 24)) (shl (Int o1) (Int 16)))
           (shl (Int o2) (Int 8)))
      (Int o3)
  = Int (wrap_int32 (pack o0 o1 o2 o3)).
Proof.
  intros H0 H1 H2 H3.
  rewrite shl_24, !shl_octet by lia.
  assert (Hs : -128 <= signedOctet o0 <= 127)
    by (unfold signedOctet; destruct (Z.ltb_spec o0 128); lia).
  assert (Hp : pack o0 o1 o2 o3 =
               signedOctet o0 * 2 ^ 24 + o1 * 2 ^ 16 + o2 * 2 ^ 8 + o3
               + (if o0 <? 128 then 0 else 1) * 2 ^ 32)
    by (unfold pack, signedOctet; destruct (Z.ltb_spec o0 128); lia).
  set (h := signedOctet o0) in *.
  unfold bor at 3. unfold ToInt32. rewrite !wrap_int32_small by lia.
  replace (o1 * 2 ^ 16) with (o1 * 2 ^ 16 + 0) at 1 by lia.
  replace (Z.lor (h * 2 ^ 24) (o1 * 2 ^ 16 + 0)) with (h * 2 ^ 24 + o1 * 2 ^ 16).
  2:{ rewrite Z.add_0_r. symmetry. apply (lor_disjoint h (o1 * 2 ^ 16) 24); lia. }
  unfold bor at 2. unfold ToInt32. rewrite !wrap_int32_small by lia.
  replace (Z.lor (h * 2 ^ 24 + o1 * 2 ^ 16) (o2 * 2 ^ 8))
    with (h * 2 ^ 24 + o1 * 2 ^ 16 + o2 * 2 ^ 8).
  2:{ replace (h * 2 ^ 24 + o1 * 2 ^ 16) with ((h * 2 ^ 8 + o1) * 2 ^ 16) by lia.
      symmetry. apply lor_disjoint; lia. }
  unfold bor, ToInt32. rewrite !wrap_int32_small by lia.
  replace (Z.lor (h * 2 ^ 24 + o1 * 2 ^ 16 + o2 * 2 ^ 8) o3)
    with (h * 2 ^ 24 + o1 * 2 ^ 16 + o2 * 2 ^ 8 + o3).
  2:{ replace (h * 2 ^ 24 + o1 * 2 ^ 16 + o2 * 2 ^ 8)
        with ((h * 2 ^ 16 + o1 * 2 ^ 8 + o2) * 2 ^ 8) by lia.
      symmetry. apply lor_disjoint; lia. }
  f_equal. rewrite Hp. unfold wrap_int32.
  destruct (o0 <? 128); Z.div_mod_to_equations; lia.
Qed.

Lemma valueOf_octets (s : string) (o0 o1 o2 o3 : Z) :
  octetsOf s = [Int o0; Int o1; Int o2; Int o3] -> valueOf s = pack o0 o1 o2 o3.
Proof. intros E. unfold valueOf, octetZ. rewrite E. reflexivity. Qed.

Lemma valueOf_range (s : string) :
  isValidIPv4 s = true -> 0 <= valueOf s < 2 ^ 32.
Proof.
  intros H. destruct (valid_octets s H) as (o0 & o1 & o2 & o3 & E & ?).
  rewrite (valueOf_octets _ _ _ _ _ E). apply pack_range; tauto.
Qed.

(** What [parseIPv4] stores as [decimalValue]: the value of the address
    read as a signed 32-bit integer. *)
Lemma parseIPv4_valid (ip : string) :
  isValidIPv4 ip = true ->
  exists parsed,
    parseIPv4 ip = Return parsed /\
    address parsed = ip /\
    octets parsed = octetsOf ip /\
    decimalValue parsed = Int (wrap_int32 (valueOf ip)).
Proof.
  intros H. unfold parseIPv4. rewrite H. cbn [negb].
  eexists. split; [reflexivity|]. cbn [address octets decimalValue].
  split; [reflexivity|]. split; [reflexivity|].
  destruct (valid_octets ip H) as (o0 & o1 & o2 & o3 & E & H0 & H1 & H2 & H3).
  rewrite (valueOf_octets _ _ _ _ _ E), E. cbn [at_ nth].
  now apply decimalValue_octets.
Qed.

Lemma parseIPv4_invalid (ip : string) :
  isValidIPv4 ip = false -> parseIPv4 ip = Throw (InvalidIPv4Address ip).
Proof. intros H. unfold parseIPv4. now rewrite H. Qed.

(** ** addToIP *)

Lemma dotted_mod (x y : Z) : x mod 2 ^ 32 = y mod 2 ^ 32 -> dotted x = dotted y.
Proof.
  intros E. rewrite !dotted_print4.
  rewrite <- (byte_mod32 x 3), <- (byte_mod32 x 2), <- (byte_mod32 x 1), <- (byte_mod32 x 0) by lia.
  rewrite E. now rewrite !byte_mod32 by lia.
Qed.

Lemma dotted_mod32 (x : Z) : dotted (x mod 2 ^ 32) = dotted x.
Proof. apply dotted_mod. apply Z.mod_mod. lia. Qed.

Lemma dotted_valid (x : Z) : isValidIPv4 (dotted x) = true.
Proof. rewrite dotted_print4. apply print4_valid; apply byte_range. Qed.

Lemma valueOf_dotted (x : Z) : valueOf (dotted x) = x mod 2 ^ 32.
Proof.
  rewrite <- dotted_mod32.
  assert (Hx : 0 <= x mod 2 ^ 32 < 2 ^ 32) by (apply Z.mod_pos_bound; lia).
  rewrite dotted_print4.
  rewrite (valueOf_octets _ _ _ _ _ (octetsOf_print4 _ _ _ _
            (byte_range _ 3) (byte_range _ 2) (byte_range _ 1) (byte_range _ 0))).
  now apply pack_bytes.
Qed.

(** Within the range where the double-precision sum is exact, [addToIP]
    prints the wrapped sum. *)
Lemma addToIP_exact (ip : string) (delta : Z) :
  isValidIPv4 ip = true ->
  Z.abs (wrap_int32 (valueOf ip) + delta) < 2 ^ 53 ->
  addToIP ip (Int delta) = Return (dotted (valueOf ip + delta)).
Proof.
  intros H Hd. unfold addToIP.
  destruct (parseIPv4_valid ip H) as (parsed & -> & _ & _ & Edv).
  cbn [bind]. rewrite Edv, add_Int by assumption.
  rewrite print_bytesOf. f_equal. apply dotted_mod.
  rewrite <- Z.add_mod_idemp_l, wrap_int32_mod, Z.add_mod_idemp_l by lia.
  reflexivity.
Qed.

Lemma wrap_int32_range (z : Z) : - 2 ^ 31 <= wrap_int32 z < 2 ^ 31.
Proof. unfold wrap_int32. pose proof (Z.mod_pos_bound (z + 2 ^ 31) (2 ^ 32)). lia. Qed.

Lemma addToIP_small (ip : string) (delta : Z) :
  isValidIPv4 ip = true ->
  Z.abs delta <= 2 ^ 53 - 2 ^ 31 - 1 ->
  addToIP ip (Int delta) = Return (dotted (valueOf ip + delta)).
Proof.
  intros H Hd. apply addToIP_exact; [assumption|].
  pose proof (wrap_int32_range (valueOf ip)). lia.
Qed.

(** ** subnetMaskToCIDR *)

Lemma result_eqb_Z_eq (r : result Z) (z : Z) : result_eqb_Z r z = true -> r = Return z.
Proof.
  destruct r; simpl; try discriminate. intros H. apply Z.eqb_eq in H. now subst.
Qed.

Lemma result_eqb_string_eq (r : result string) (s : string) :
  result_eqb_string r s = true -> r = Return s.
Proof.
  destruct r; simpl; try discriminate. intros H. apply String.eqb_eq in H. now subst.
Qed.

Lemma countBits_acc (fuel : nat) :
  forall bits c,
    countBits fuel bits c = (x <- countBits fuel bits 0 ;; Return (c + x)).
Proof.
  induction fuel as [|fuel IH]; intros bits c; [reflexivity|].
  cbn [countBits]. destruct (truthy bits).
  - rewrite (IH _ (c + _)), (IH _ (0 + _)).
    destruct (countBits fuel (shru bits (Int 1)) 0); cbn [bind]; [f_equal; lia | reflexivity..].
  - cbn [bind]. f_equal. lia.
Qed.

Lemma octets_counted : forallb countsOctet allOctets = true.
Proof. vm_compute. reflexivity. Qed.

Lemma countBits_octet (o c : Z) :
  0 <= o <= 255 -> countBits 33 (Int o) c = Return (c + popcount 8 o).
Proof.
  intros Ho. rewrite countBits_acc.
  rewrite (result_eqb_Z_eq _ _ (octet_cases _ octets_counted o Ho)). reflexivity.
Qed.

(** The loop ends within its fuel on every input. *)
Lemma countBits_bounded (k : nat) :
  forall u c, (k <= 31)%nat -> 0 <= u < 2 ^ Z.of_nat k ->
    exists c', countBits (S k) (Int u) c = Return c'.
Proof.
  induction k as [|k IH]; intros u c Hk Hu.
  - assert (u = 0) as -> by (change (2 ^ Z.of_nat 0) with 1 in Hu; lia).
    exists c. reflexivity.
  - cbn [countBits]. destruct (truthy (Int u)); [|eauto].
    rewrite shru_Int by lia.
    rewrite Nat2Z.inj_succ, Z.pow_succ_r in Hu by lia.
    assert (2 ^ Z.of_nat k <= 2 ^ 31) by (apply Z.pow_le_mono_r; lia).
    rewrite (Z.mod_small u) by lia.
    apply IH; [lia|]. change (2 ^ 1) with 2. Z.div_mod_to_equations. lia.
Qed.

Lemma countBits_returns (bits : number) (c : Z) :
  exists c', countBits 33 bits c = Return c'.
Proof.
  cbn [countBits]. destruct (truthy bits); [|eauto].
  assert (E : exists u, shru bits (Int 1) = Int u /\ 0 <= u < 2 ^ 31).
  { eexists. split; [reflexivity|].
    change (ToUint32 (Int 1) mod 32) with 1. rewrite Z.shiftr_div_pow2 by lia.
    assert (0 <= ToUint32 bits < 2 ^ 32).
    { destruct bits; cbn [ToUint32]; try lia. apply Z.mod_pos_bound. lia. }
    change (2 ^ 1) with 2. Z.div_mod_to_equations. lia. }
  destruct E as (u & -> & Hu). apply (countBits_bounded 31); [lia | exact Hu].
Qed.

Lemma subnetMaskToCIDR_valid (mask : string) :
  isValidIPv4 mask = true ->
  subnetMaskToCIDR mask =
  Return (popcount 8 (octetZ mask 0) + popcount 8 (octetZ mask 1)
          + popcount 8 (octetZ mask 2) + popcount 8 (octetZ mask 3)).
Proof.
  intros H. unfold subnetMaskToCIDR, octetZ. rewrite H. cbn [negb].
  destruct (valid_octets mask H) as (o0 & o1 & o2 & o3 & -> & H0 & H1 & H2 & H3).
  cbn [countOctets at_ nth].
  rewrite countBits_octet by assumption. cbn [bind].
  rewrite countBits_octet by assumption. cbn [bind].
  rewrite countBits_octet by assumption. cbn [bind].
  rewrite countBits_octet by assumption. reflexivity.
Qed.

Lemma popcount_range (o : Z) : 0 <= popcount 8 o <= 8.
Proof.
  unfold popcount. cbn [seq map fold_right].
  repeat match goal with |- context [Z.testbit o ?j] => destruct (Z.testbit o j) end;
    cbn [Z.b2z]; lia.
Qed.

Lemma subnetMaskToCIDR_range (mask : string) (cidr : Z) :
  subnetMaskToCIDR mask = Return cidr -> 0 <= cidr <= 32.
Proof.
  unfold subnetMaskToCIDR at 1. destruct (isValidIPv4 mask) eqn:H; [|discriminate].
  cbn [negb]. fold (subnetMaskToCIDR mask).
  intros E.
  assert (E' : subnetMaskToCIDR mask = Return cidr).
  { unfold subnetMaskToCIDR. now rewrite H. }
  rewrite subnetMaskToCIDR_valid in E' by assumption. injection E' as <-.
  pose proof (popcount_range (octetZ mask 0)). pose proof (popcount_range (octetZ mask 1)).
  pose proof (popcount_range (octetZ mask 2)). pose proof (popcount_range (octetZ mask 3)).
  lia.
Qed.

(** ** cidrToSubnetMask *)

Lemma in_allPrefixes (p : Z) : 1 <= p <= 32 -> In p allPrefixes.
Proof.
  intros H. unfold allPrefixes. apply in_map_iff. exists (Z.to_nat p). split.
  - lia.
  - apply in_seq. lia.
Qed.

Lemma prefix_cases (P : Z -> bool) :
  forallb P allPrefixes = true -> forall p, 1 <= p <= 32 -> P p = true.
Proof.
  intros H p Hp. rewrite forallb_forall in H. apply H, in_allPrefixes, Hp.
Qed.

Lemma prefixes_masked : forallb masksPrefix allPrefixes = true.
Proof. vm_compute. reflexivity. Qed.

(** From 1 to 32 the mask has its top [p] bits set. *)
Lemma cidrToSubnetMask_positive (p : Z) :
  1 <= p <= 32 -> cidrToSubnetMask (Int p) = Return (dotted (prefixMask p)).
Proof.
  intros Hp. apply result_eqb_string_eq. exact (prefix_cases _ prefixes_masked p Hp).
Qed.

Lemma cidrToSubnetMask_zero : cidrToSubnetMask (Int 0) = Return "255.255.255.255".
Proof. reflexivity. Qed.

Lemma cidrToSubnetMask_out_of_range (p : Z) :
  p < 0 \/ 32 < p -> cidrToSubnetMask (Int p) = Throw (InvalidCIDRPrefix (Int p)).
Proof.
  intros H. unfold cidrToSubnetMask, gt, lt.
  destruct (Z.ltb_spec p 0), (Z.ltb_spec 32 p); cbn [orb]; try reflexivity; lia.
Qed.

Lemma cidrToSubnetMask_in_range (p : Z) :
  0 <= p <= 32 -> exists mask, cidrToSubnetMask (Int p) = Return mask.
Proof.
  intros H. unfold cidrToSubnetMask, gt, lt.
  destruct (Z.ltb_spec p 0), (Z.ltb_spec 32 p); cbn [orb]; try lia. eauto.
Qed.

Lemma prefixes_round_trip : forallb roundTrips allPrefixes = true.
Proof. vm_compute. reflexivity. Qed.

Lemma round_trip_positive (p : Z) :
  1 <= p <= 32 ->
  (mask <- cidrToSubnetMask (Int p) ;; subnetMaskToCIDR mask) = Return p.
Proof.
  intros Hp. apply result_eqb_Z_eq. exact (prefix_cases _ prefixes_round_trip p Hp).
Qed.

(** The bits of [prefixMask]: exactly the top [p] of the 32. *)
Lemma prefixMask_bits (p j : Z) :
  0 <= p <= 32 -> 0 <= j < 32 ->
  Z.testbit (prefixMask p) j = (32 - p <=? j).
Proof.
  intros Hp Hj. unfold prefixMask.
  replace (2 ^ 32 - 2 ^ (32 - p)) with (Z.shiftl (Z.ones p) (32 - p)).
  - rewrite Z.shiftl_spec by lia.
    destruct (Z.leb_spec (32 - p) j).
    + apply Z.ones_spec_low. lia.
    + apply Z.testbit_neg_r. lia.
  - rewrite Z.shiftl_mul_pow2, Z.ones_equiv by lia.
    rewrite <- Z.sub_1_r, Z.mul_sub_distr_r, <- Z.pow_add_r by lia.
    replace (p + (32 - p)) with 32 by lia. lia.
Qed.

(** ** Rounding of large integers *)

Lemma round53_large (z : Z) : 2 ^ 53 <= z -> 2 ^ 53 <= round53 z.
Proof.
  intros H. unfold round53. rewrite (Z.abs_eq z) by lia.
  destruct (Z.ltb_spec z (2 ^ 53)); [lia|].
  rewrite Z.sgn_pos by lia.
  assert (H53 : 53 <= Z.log2 z) by (apply Z.log2_le_pow2; lia).
  set (e := Z.log2 z - 52).
  assert (He : 1 <= e) by (unfold e; lia).
  assert (Hq : 2 ^ 52 <= z / 2 ^ e).
  { apply Z.div_le_lower_bound; [apply Z.pow_pos_nonneg; lia|].
    rewrite Z.mul_comm, <- Z.pow_add_r by lia.
    replace (52 + e) with (Z.log2 z) by (unfold e; lia).
    apply Z.log2_spec. lia. }
  assert (H2e : 2 <= 2 ^ e).
  { change 2 with (2 ^ 1) at 1. apply Z.pow_le_mono_r; lia. }
  set (q := z / 2 ^ e) in *.
  assert (Hq' : q <= (if z mod 2 ^ e <? 2 ^ (e - 1) then q
                      else if 2 ^ (e - 1) <? z mod 2 ^ e then q + 1
                      else if Z.even q then q else q + 1)).
  { repeat match goal with |- context [if ?b then _ else _] => destruct b end; lia. }
  rewrite Z.mul_1_l.
  match goal with |- _ <= ?q' * _ => set (q1 := q') in * end.
  change (2 ^ 53) with (2 ^ 52 * 2). nia.
Qed.

Lemma round53_opp (z : Z) : round53 (- z) = - round53 z.
Proof.
  unfold round53. rewrite Z.abs_opp, Z.sgn_opp.
  destruct (Z.abs z <? 2 ^ 53); lia.
Qed.

Lemma round53_small_neg (z : Z) : z <= - 2 ^ 53 -> round53 z <= - 2 ^ 53.
Proof.
  intros H. pose proof (round53_large (- z) ltac:(lia)) as L.
  rewrite round53_opp in L. lia.
Qed.

(** A sum that is exactly above 30 is above 30 as a double. *)
Lemma of_exact_gt_30 (z : Z) : 30 < z -> gt (of_exact z) (Int 30) = true.
Proof.
  intros H. unfold of_exact.
  destruct (Z.leb_spec (2 ^ 1024) (round53 z)); [reflexivity|].
  assert (R : 30 < round53 z).
  { destruct (Z.lt_ge_cases z (2 ^ 53)).
    - rewrite round53_exact; [assumption|]. rewrite Z.abs_eq; lia.
    - pose proof (round53_large z ltac:(lia)). lia. }
  destruct (Z.leb_spec (round53 z) (- 2 ^ 1024)).
  - assert (0 < 2 ^ 1024) by (apply Z.pow_pos_nonneg; lia). lia.
  - unfold gt, lt. apply Z.ltb_lt. exact R.
Qed.

(** A difference that is exactly negative is negative as a double. *)
Lemma of_exact_lt_0 (z : Z) : z < 0 -> lt (of_exact z) (Int 0) = true.
Proof.
  intros H. unfold of_exact.
  assert (R : round53 z < 0).
  { destruct (Z.lt_ge_cases (- 2 ^ 53) z).
    - rewrite round53_exact; [assumption|]. rewrite Z.abs_neq; lia.
    - pose proof (round53_small_neg z ltac:(lia)). lia. }
  assert (0 < 2 ^ 1024) by (apply Z.pow_pos_nonneg; lia).
  destruct (Z.leb_spec (2 ^ 1024) (round53 z)); [lia|].
  destruct (Z.leb_spec (round53 z) (- 2 ^ 1024)); [reflexivity|].
  unfold lt. apply Z.ltb_lt. exact R.
Qed.

(** ** calculate *)

Lemma calculateNetworkAddress_valid (ip mask : string) :
  isValidIPv4 ip = true -> isValidIPv4 mask = true ->
  calculateNetworkAddress ip mask = dotted (Z.land (valueOf ip) (valueOf mask)).
Proof.
  intros Hi Hm.
  destruct (valid_octets ip Hi) as (o0 & o1 & o2 & o3 & Ei & ? & ? & ? & ?).
  destruct (valid_octets mask Hm) as (m0 & m1 & m2 & m3 & Em & ? & ? & ? & ?).
  unfold calculateNetworkAddress.
  rewrite (valueOf_octets _ _ _ _ _ Ei), (valueOf_octets _ _ _ _ _ Em), Ei, Em.
  cbn [mapi mapi_from at_ nth]. rewrite !band_octets by assumption.
  rewrite dotted_print4, !byte_land by lia.
  destruct (byte_pack o0 o1 o2 o3) as (-> & -> & -> & ->); try assumption.
  destruct (byte_pack m0 m1 m2 m3) as (-> & -> & -> & ->); try assumption.
  reflexivity.
Qed.

Lemma calculateBroadcastAddress_valid (net mask : string) :
  isValidIPv4 net = true -> isValidIPv4 mask = true ->
  calculateBroadcastAddress net mask
  = dotted (Z.lor (valueOf net) (complement32 (valueOf mask))).
Proof.
  intros Hn Hm.
  destruct (valid_octets net Hn) as (n0 & n1 & n2 & n3 & En & ? & ? & ? & ?).
  destruct (valid_octets mask Hm) as (m0 & m1 & m2 & m3 & Em & ? & ? & ? & ?).
  unfold calculateBroadcastAddress.
  rewrite (valueOf_octets _ _ _ _ _ En), (valueOf_octets _ _ _ _ _ Em), En, Em.
  cbn [mapi mapi_from at_ nth map]. rewrite !sub_Int by lia.
  rewrite !bor_octets by lia.
  rewrite dotted_print4, !byte_lor, !byte_complement32 by lia.
  destruct (byte_pack n0 n1 n2 n3) as (-> & -> & -> & ->); try assumption.
  destruct (byte_pack m0 m1 m2 m3) as (-> & -> & -> & ->); try assumption.
  reflexivity.
Qed.

Lemma calculate_valid (ip mask : string) :
  isValidIPv4 ip = true -> isValidIPv4 mask = true ->
  exists subnetInfo,
    calculate ip mask = Return subnetInfo /\
    networkAddress subnetInfo = calculateNetworkAddress ip mask /\
    broadcastAddress subnetInfo =
      calculateBroadcastAddress (networkAddress subnetInfo) mask /\
    hostRange subnetInfo =
      calculateHostRange (networkAddress subnetInfo) (broadcastAddress subnetInfo).
Proof.
  intros Hi Hm. unfold calculate. rewrite Hi, Hm. cbn [negb].
  rewrite subnetMaskToCIDR_valid by assumption. cbn [bind].
  eexists. split; [reflexivity|]. cbn [networkAddress broadcastAddress hostRange].
  auto.
Qed.

Lemma calculate_invalid_ip (ip mask : string) :
  isValidIPv4 ip = false -> calculate ip mask = Throw (InvalidIPAddress ip).
Proof. intros H. unfold calculate. now rewrite H. Qed.

(** ** calculateSubnets *)

Lemma indicesFrom_succ (i : Z) (n : nat) :
  indicesFrom i (S n) = i :: indicesFrom (i + 1) n.
Proof.
  unfold indicesFrom. cbn [seq map]. f_equal; [lia|].
  rewrite <- seq_shift, map_map. apply map_ext. intros k. lia.
Qed.

Section Partition.

(** A base address and a partition into [count] blocks of [size] addresses
    that does not exceed the address space. *)
Variables (ip : string) (size count : Z).
Hypothesis ip_valid : isValidIPv4 ip = true.
Hypothesis size_range : 1 <= size <= 2 ^ 32.
Hypothesis count_fits : count * size <= 2 ^ 32.

Lemma subnetMember_expected (i : Z) :
  0 <= i < count ->
  subnetMember ip (Int size) i = Return (expectedMember (valueOf ip) size i).
Proof.
  intros Hi. unfold subnetMember.
  assert (0 <= i * size) by nia.
  assert (i * size < 2 ^ 32) by nia.
  assert (i < 2 ^ 32) by nia.
  rewrite mul_Int by lia.
  rewrite addToIP_small by (try assumption; lia). cbn [bind].
  rewrite sub_Int by lia.
  rewrite addToIP_small by (try apply dotted_valid; lia). cbn [bind].
  rewrite addToIP_small by (try apply dotted_valid; lia). cbn [bind].
  rewrite addToIP_small by (try apply dotted_valid; lia). cbn [bind].
  rewrite add_Int by lia.
  rewrite !valueOf_dotted.
  unfold expectedMember. rewrite !dotted_mod32.
  replace (((valueOf ip + i * size) mod 2 ^ 32 + (size - 1)) mod 2 ^ 32 - 1)
    with (((valueOf ip + i * size) mod 2 ^ 32 + (size - 1)) mod 2 ^ 32 + -1) by lia.
  reflexivity.
Qed.

(** The loop, by induction on the iterations left: it appends the members
    of the remaining indices, in order. *)
Lemma subnetLoop_expected (fuel : nat) :
  forall (i : Z) (acc : list SubnetDetails),
    0 <= i -> i + Z.of_nat fuel = count ->
    subnetLoop fuel ip (Int size) (Int count) i acc
    = Return (acc ++ map (expectedMember (valueOf ip) size) (indicesFrom i fuel))%list.
Proof.
  induction fuel as [|fuel IH]; intros i acc Hi E.
  - cbn [subnetLoop lt]. destruct (Z.ltb_spec i count); [lia|].
    cbn [indicesFrom seq map]. now rewrite app_nil_r.
  - cbn [subnetLoop lt]. destruct (Z.ltb_spec i count); [|lia].
    rewrite subnetMember_expected by lia. cbn [bind].
    rewrite IH by lia. rewrite indicesFrom_succ. cbn [map].
    now rewrite <- app_assoc.
Qed.

End Partition.

Lemma pow2_exact (e : Z) : 0 <= e <= 32 -> Math_pow2 (Int e) = Int (2 ^ e).
Proof.
  intros He. unfold Math_pow2. destruct (Z.ltb_spec e 0); [lia|].
  apply of_exact_Int.
  assert (0 < 2 ^ e) by (apply Z.pow_pos_nonneg; lia).
  assert (2 ^ e <= 2 ^ 32) by (apply Z.pow_le_mono_r; lia). lia.
Qed.

(** The successful runs of [calculateSubnets]. *)
Lemma calculateSubnets_partition (ip mask : string) (cidr n : Z) :
  isValidIPv4 ip = true -> isValidIPv4 mask = true ->
  subnetMaskToCIDR mask = Return cidr ->
  1 <= n -> cidr + Z.log2_up n <= 30 ->
  exists subnetInfo,
    calculate ip mask = Return subnetInfo /\
    calculateSubnets ip mask (Int n)
    = Return {| info := subnetInfo;
                subnetDetails :=
                  map (expectedMember (valueOf ip) (2 ^ (32 - (cidr + Z.log2_up n))))
                      (indicesFrom 0 (Z.to_nat (2 ^ Z.log2_up n))) |}.
Proof.
  intros Hip Hm Ec Hn Hb.
  destruct (calculate_valid ip mask Hip Hm) as (subnetInfo & Ecalc & _).
  exists subnetInfo. split; [assumption|].
  pose proof (subnetMaskToCIDR_range _ _ Ec) as Hc.
  pose proof (Z.log2_up_nonneg n) as Hl.
  set (b := Z.log2_up n) in *.
  unfold calculateSubnets. rewrite Ecalc, Ec. cbn [bind Math_ceil_log2].
  destruct (Z.ltb_spec 0 n); [|lia]. fold b.
  rewrite add_Int by lia.
  unfold gt at 1. cbn [lt]. destruct (Z.ltb_spec 30 (cidr + b)); [lia|].
  destruct (cidrToSubnetMask_in_range (cidr + b)) as (newSubnetMask & ->); [lia|].
  cbn [bind]. rewrite sub_Int by lia. rewrite !pow2_exact by lia.
  cbn [tripCount].
  assert (0 < 2 ^ b) by (apply Z.pow_pos_nonneg; lia).
  assert (0 < 2 ^ (32 - (cidr + b))) by (apply Z.pow_pos_nonneg; lia).
  assert (2 ^ (32 - (cidr + b)) <= 2 ^ 32) by (apply Z.pow_le_mono_r; lia).
  assert (2 ^ b * 2 ^ (32 - (cidr + b)) <= 2 ^ 32).
  { rewrite <- Z.pow_add_r by lia. apply Z.pow_le_mono_r; lia. }
  rewrite (subnetLoop_expected ip (2 ^ (32 - (cidr + b))) (2 ^ b)) by (try assumption; lia).
  reflexivity.
Qed.

Lemma calculateSubnets_capacity (ip mask : string) (cidr n : Z) :
  isValidIPv4 ip = true -> isValidIPv4 mask = true ->
  subnetMaskToCIDR mask = Return cidr ->
  1 <= n -> 30 < cidr + Z.log2_up n ->
  calculateSubnets ip mask (Int n) = Throw (TooManySubnets (Int n)).
Proof.
  intros Hip Hm Ec Hn Hb.
  destruct (calculate_valid ip mask Hip Hm) as (subnetInfo & Ecalc & _).
  unfold calculateSubnets. rewrite Ecalc, Ec. cbn [bind Math_ceil_log2].
  destruct (Z.ltb_spec 0 n); [|lia].
  cbn [add]. now rewrite of_exact_gt_30.
Qed.

Lemma calculateSubnets_zero (ip mask : string) :
  isValidIPv4 ip = true -> isValidIPv4 mask = true ->
  calculateSubnets ip mask (Int 0) = Throw (InvalidCIDRPrefix NInf).
Proof.
  intros Hip Hm.
  destruct (calculate_valid ip mask Hip Hm) as (subnetInfo & Ecalc & _).
  unfold calculateSubnets. rewrite Ecalc, subnetMaskToCIDR_valid by assumption.
  reflexivity.
Qed.

Lemma calculateSubnets_negative (ip mask : string) (n : Z) :
  isValidIPv4 ip = true -> isValidIPv4 mask = true -> n < 0 ->
  exists subnetInfo,
    calculate ip mask = Return subnetInfo /\
    calculateSubnets ip mask (Int n)
    = Return {| info := subnetInfo; subnetDetails := [] |}.
Proof.
  intros Hip Hm Hn.
  destruct (calculate_valid ip mask Hip Hm) as (subnetInfo & Ecalc & _).
  exists subnetInfo. split; [assumption|].
  unfold calculateSubnets. rewrite Ecalc, subnetMaskToCIDR_valid by assumption.
  cbn [bind Math_ceil_log2].
  destruct (Z.ltb_spec 0 n); [lia|]. destruct (Z.eqb_spec n 0); [lia|].
  reflexivity.
Qed.

Lemma length_indicesFrom (i : Z) (n : nat) : List.length (indicesFrom i n) = n.
Proof. unfold indicesFrom. now rewrite length_map, length_seq. Qed.

Lemma nth_error_indicesFrom (i : Z) (n k : nat) :
  (k < n)%nat -> nth_error (indicesFrom i n) k = Some (i + Z.of_nat k).
Proof.
  intros H. unfold indicesFrom.
  rewrite nth_error_map, nth_error_seq.
  destruct (Nat.ltb_spec k n); [reflexivity | lia].
Qed.

Lemma round53_exact_le (z : Z) : Z.abs z <= 2 ^ 53 -> round53 z = z.
Proof.
  intros H. destruct (Z.eq_dec (Z.abs z) (2 ^ 53)) as [E|E].
  - assert (z = 2 ^ 53 \/ z = - 2 ^ 53) as [-> | ->] by lia; reflexivity.
  - apply round53_exact. lia.
Qed.

Lemma round53_pos (z : Z) : 0 <= z -> 0 <= round53 z.
Proof.
  intros H. destruct (Z.lt_ge_cases z (2 ^ 53)).
  - rewrite round53_exact; [assumption|]. rewrite Z.abs_eq; lia.
  - pose proof (round53_large z ltac:(lia)). lia.
Qed.

Lemma of_exact_notNegative (z : Z) : 0 <= z -> notNegativeInt (of_exact z).
Proof.
  intros H. unfold of_exact.
  destruct (2 ^ 1024 <=? round53 z); [exact I|].
  destruct (round53 z <=? - 2 ^ 1024); [exact I|].
  cbn. now apply round53_pos.
Qed.

(** The exponent that [calculateNumberOfHosts] hands to [Math_pow2]. *)
Lemma calculateNumberOfHosts_exponent (cidr : number) :
  ge cidr (Int 31) = false -> notNegativeInt (sub (Int 32) cidr).
Proof.
  destruct cidr as [c| | |]; try (intros _; exact I).
  unfold ge, lt, sub. cbn [neg add].
  intros H. apply orb_false_iff in H as [H _]. apply Z.ltb_ge in H.
  apply of_exact_notNegative. lia.
Qed.

(** The two exponents that [calculateSubnets] hands to [Math_pow2]. *)
Lemma calculateSubnets_exponents (cidr : Z) (desiredSubnets : number) :
  0 <= cidr ->
  let additionalBits := Math_ceil_log2 desiredSubnets in
  let newCIDR := add (Int cidr) additionalBits in
  gt newCIDR (Int 30) = false ->
  notNegativeInt additionalBits /\ notNegativeInt (sub (Int 32) newCIDR).
Proof.
  intros Hc. destruct desiredSubnets as [n| | |]; cbn [Math_ceil_log2 add];
    try (intros _; split; exact I); try discriminate.
  destruct (Z.ltb_spec 0 n); [|destruct (n =? 0); cbn [add]; intros _; split; exact I].
  pose proof (Z.log2_up_nonneg n) as Hl. cbn [add].
  intros G. split; [exact Hl|].
  unfold of_exact in *.
  destruct (2 ^ 1024 <=? round53 (cidr + Z.log2_up n)); [exact I|].
  destruct (round53 (cidr + Z.log2_up n) <=? - 2 ^ 1024); [exact I|].
  unfold gt, lt in G. apply Z.ltb_ge in G.
  unfold sub. cbn [neg add]. apply of_exact_notNegative. lia.
Qed.

Lemma octetZ_valid (s : string) :
  isValidIPv4 s = true ->
  octetZ s 0 = byte (valueOf s) 3 /\ octetZ s 1 = byte (valueOf s) 2 /\
  octetZ s 2 = byte (valueOf s) 1 /\ octetZ s 3 = byte (valueOf s) 0.
Proof.
  intros H. destruct (valid_octets s H) as (o0 & o1 & o2 & o3 & E & H0 & H1 & H2 & H3).
  rewrite (valueOf_octets _ _ _ _ _ E). unfold octetZ. rewrite E. cbn [at_ nth].
  destruct (byte_pack o0 o1 o2 o3) as (-> & -> & -> & ->); auto.
Qed.

Lemma octetZ_range (s : string) (k : nat) :
  isValidIPv4 s = true -> 0 <= octetZ s k <= 255.
Proof.
  intros H. destruct (valid_octets s H) as (o0 & o1 & o2 & o3 & E & H0 & H1 & H2 & H3).
  unfold octetZ. rewrite E.
  destruct k as [|[|[|[|k]]]]; cbn [at_ nth]; try assumption.
  destruct k; cbn; lia.
Qed.

Lemma octetZ_dotted (x : Z) :
  octetZ (dotted x) 0 = byte x 3 /\ octetZ (dotted x) 1 = byte x 2 /\
  octetZ (dotted x) 2 = byte x 1 /\ octetZ (dotted x) 3 = byte x 0.
Proof.
  unfold octetZ. rewrite dotted_print4, octetsOf_print4 by apply byte_range.
  cbn [at_ nth]. auto.
Qed.

Lemma testbit_byte (v k i : Z) :
  0 <= k -> 0 <= i < 8 -> Z.testbit (byte v k) i = Z.testbit v (8 * k + i).
Proof.
  intros Hk Hi. rewrite byte_as_bits by assumption.
  change 255 with (Z.ones 8).
  rewrite Z.land_spec, Z.shiftr_spec, Z.ones_spec_low by lia.
  rewrite andb_true_r. f_equal. lia.
Qed.

Lemma popcount_bytes (v : Z) :
  popcount 32 v
  = popcount 8 (byte v 3) + popcount 8 (byte v 2)
    + popcount 8 (byte v 1) + popcount 8 (byte v 0).
Proof.
  unfold popcount. cbn [seq map fold_right].
  rewrite !testbit_byte by (cbn; lia). cbn [Z.of_nat Pos.of_succ_nat Pos.succ Z.mul Z.add Pos.mul Pos.add Pos.add_carry].
  lia.
Qed.

(** ** Supporting facts for the claims *)

Lemma calculateNetworkAddress_is_valid (ip mask : string) :
  isValidIPv4 ip = true -> isValidIPv4 mask = true ->
  isValidIPv4 (calculateNetworkAddress ip mask) = true.
Proof.
  intros Hi Hm. rewrite calculateNetworkAddress_valid by assumption. apply dotted_valid.
Qed.

Lemma land_range32 (x y : Z) : 0 <= x < 2 ^ 32 -> 0 <= Z.land x y < 2 ^ 32.
Proof.
  intros Hx. split; [apply Z.land_nonneg; lia|].
  assert (E : Z.land x y = Z.land (Z.land x y) (Z.ones 32)).
  { replace x with (Z.land x (Z.ones 32)) at 1.
    - Z.bitblast.
    - rewrite Z.land_ones by lia. apply Z.mod_small. lia. }
  rewrite E, Z.land_ones by lia. apply Z.mod_pos_bound. lia.
Qed.

Lemma subnetMaskToCIDR_Return_valid (mask : string) (cidr : Z) :
  subnetMaskToCIDR mask = Return cidr -> isValidIPv4 mask = true.
Proof.
  unfold subnetMaskToCIDR. destruct (isValidIPv4 mask); [reflexivity | discriminate].
Qed.

(** Where the last octet leaves room, the per-octet step of
    [calculateHostRange] is the 32-bit successor and predecessor. *)
Lemma calculateHostRange_first (net bcast : string) :
  isValidIPv4 net = true -> octetZ net 3 < 255 ->
  first (calculateHostRange net bcast) = dotted (valueOf net + 1).
Proof.
  intros H L. destruct (valid_octets net H) as (o0 & o1 & o2 & o3 & E & ? & ? & ? & ?).
  unfold calculateHostRange, octetZ in *. rewrite (valueOf_octets _ _ _ _ _ E).
  rewrite E in *. cbn [at_ nth] in L. cbn [first updateAt List.length Nat.ltb Nat.leb
    firstn skipn map app at_ nth slotToString].
  rewrite add_Int by lia.
  replace (pack o0 o1 o2 o3 + 1) with (pack o0 o1 o2 (o3 + 1)) by (unfold pack; lia).
  rewrite dotted_print4.
  destruct (byte_pack o0 o1 o2 (o3 + 1)) as (-> & -> & -> & ->); try lia.
  reflexivity.
Qed.

Lemma calculateHostRange_last (net bcast : string) :
  isValidIPv4 bcast = true -> 0 < octetZ bcast 3 ->
  last (calculateHostRange net bcast) = dotted (valueOf bcast - 1).
Proof.
  intros H L. destruct (valid_octets bcast H) as (o0 & o1 & o2 & o3 & E & ? & ? & ? & ?).
  unfold calculateHostRange, octetZ in *. rewrite (valueOf_octets _ _ _ _ _ E).
  rewrite E in *. cbn [at_ nth] in L. cbn [last updateAt List.length Nat.ltb Nat.leb
    firstn skipn map app at_ nth slotToString].
  rewrite sub_Int by lia.
  replace (pack o0 o1 o2 o3 - 1) with (pack o0 o1 o2 (o3 - 1)) by (unfold pack; lia).
  rewrite dotted_print4.
  destruct (byte_pack o0 o1 o2 (o3 - 1)) as (-> & -> & -> & ->); try lia.
  reflexivity.
Qed.


(** Two neighbouring addresses on either side of 128.0.0.0 are reported
    2^32 - 1 apart. *)
Lemma ipDifference_across_sign :
  ipDifference "128.0.0.0" "127.255.255.255" = Return (Int 4294967295).
Proof. reflexivity. Qed.

Lemma calculateSubnets_slash29_eight :
  subnetMaskToCIDR "255.255.255.248" = Return 29 /\
  calculateSubnets "10.0.0.0" "255.255.255.248" (Int 8) = Throw (TooManySubnets (Int 8)).
Proof. split; reflexivity. Qed.

Lemma log2_up_large (z : Z) : 2 ^ 53 <= z -> 53 <= Z.log2_up z.
Proof.
  intros H. apply (Z.log2_up_le_mono (2 ^ 53) z H).
Qed.

(** [calculateSubnetMaskFromHostCount] on every count from 1 on. *)
Lemma calculateSubnetMaskFromHostCount_cases (hostCount : Z) :
  1 <= hostCount ->
  let prefix := 32 - Z.log2_up (hostCount + 2) in
  (prefix < 0 /\
   calculateSubnetMaskFromHostCount (Int hostCount) = Throw HostCountTooLarge)
  \/ (prefix = 0 /\
      calculateSubnetMaskFromHostCount (Int hostCount) = Return "255.255.255.255")
  \/ (1 <= prefix <= 30 /\
      calculateSubnetMaskFromHostCount (Int hostCount) = Return (dotted (prefixMask prefix))).
Proof.
  intros Hh prefix. unfold calculateSubnetMaskFromHostCount. cbn [add].
  destruct (Z.lt_ge_cases (hostCount + 2) (2 ^ 53)) as [Hs | Hl].
  - rewrite of_exact_Int by lia. cbn [Math_ceil_log2].
    destruct (Z.ltb_spec 0 (hostCount + 2)); [|lia].
    assert (L2 : Z.log2_up 3 <= Z.log2_up (hostCount + 2))
      by (apply Z.log2_up_le_mono; lia).
    assert (L53 : Z.log2_up (hostCount + 2) <= Z.log2_up (2 ^ 53))
      by (apply Z.log2_up_le_mono; lia).
    change (Z.log2_up 3) with 2 in L2. change (Z.log2_up (2 ^ 53)) with 53 in L53.
    rewrite sub_Int by lia. fold prefix. cbn [lt].
    destruct (Z.ltb_spec prefix 0); [left; auto|].
    right. destruct (Z.eq_dec prefix 0) as [E | E].
    + left. rewrite E. auto.
    + right. split; [unfold prefix in *; lia|].
      apply cidrToSubnetMask_positive. unfold prefix in *. lia.
  - left. pose proof (log2_up_large _ Hl). split; [unfold prefix; lia|].
    pose proof (round53_large _ Hl) as Hr. unfold of_exact.
    destruct (2 ^ 1024 <=? round53 (hostCount + 2)); [reflexivity|].
    destruct (Z.leb_spec (round53 (hostCount + 2)) (- 2 ^ 1024)) as [Hn|_].
    { assert (0 < 2 ^ 1024) by (apply Z.pow_pos_nonneg; lia). lia. }
    cbn [Math_ceil_log2]. destruct (Z.ltb_spec 0 (round53 (hostCount + 2))); [|lia].
    pose proof (log2_up_large _ Hr). unfold sub. cbn [neg add].
    rewrite of_exact_lt_0 by lia. reflexivity.
Qed.

(* ================================================================== *)
(** ** The claims *)

(** C1.  For every syntactically valid address text and mask text,
    [calculate] returns a SubnetInfo whose networkAddress is the bitwise AND
    of address and mask and whose broadcastAddress is the bitwise OR of the
    networkAddress with the 32-bit complement of the mask; octet by octet,
    the network octet is the AND of the two octets and the broadcast octet is
    the network octet OR (255 minus the mask octet). *)
Theorem calculate_network_and_broadcast (ip mask : string) :
  isValidIPv4 ip = true -> isValidIPv4 mask = true ->
  exists subnetInfo,
    calculate ip mask = Return subnetInfo /\
    networkAddress subnetInfo = dotted (Z.land (valueOf ip) (valueOf mask)) /\
    broadcastAddress subnetInfo
    = dotted (Z.lor (valueOf (networkAddress subnetInfo)) (complement32 (valueOf mask))) /\
    (forall k, (k < 4)%nat ->
       octetZ (networkAddress subnetInfo) k = Z.land (octetZ ip k) (octetZ mask k) /\
       octetZ (broadcastAddress subnetInfo) k
       = Z.lor (octetZ (networkAddress subnetInfo) k) (255 - octetZ mask k)).
Proof.
  intros Hi Hm.
  destruct (calculate_valid ip mask Hi Hm) as (subnetInfo & E & En & Eb & _).
  exists subnetInfo. split; [assumption|].
  pose proof (calculateNetworkAddress_is_valid ip mask Hi Hm) as Hn.
  rewrite <- En in Hn.
  rewrite calculateBroadcastAddress_valid in Eb by assumption.
  rewrite calculateNetworkAddress_valid in En by assumption.
  split; [assumption|]. split; [assumption|].
  intros k Hk. rewrite Eb.
  destruct (octetZ_dotted (Z.lor (valueOf (networkAddress subnetInfo))
                                 (complement32 (valueOf mask)))) as (B0 & B1 & B2 & B3).
  destruct (octetZ_valid _ Hn) as (N0 & N1 & N2 & N3).
  destruct (octetZ_valid _ Hm) as (M0 & M1 & M2 & M3).
  destruct (octetZ_valid _ Hi) as (I0 & I1 & I2 & I3).
  assert (V : valueOf (networkAddress subnetInfo) = Z.land (valueOf ip) (valueOf mask)).
  { rewrite En at 1. rewrite valueOf_dotted. apply Z.mod_small.
    apply land_range32, valueOf_range, Hi. }
  destruct k as [|[|[|[|k]]]]; [| | | |lia].
  - rewrite B0, N0, I0, M0, byte_lor, byte_complement32, V, byte_land by lia. auto.
  - rewrite B1, N1, I1, M1, byte_lor, byte_complement32, V, byte_land by lia. auto.
  - rewrite B2, N2, I2, M2, byte_lor, byte_complement32, V, byte_land by lia. auto.
  - rewrite B3, N3, I3, M3, byte_lor, byte_complement32, V, byte_land by lia. auto.
Qed.

Lemma calculate_network_and_broadcast_witness :
  exists subnetInfo,
    calculate "192.168.1.77" "255.255.255.0" = Return subnetInfo /\
    networkAddress subnetInfo
    = dotted (Z.land (valueOf "192.168.1.77") (valueOf "255.255.255.0")) /\
    broadcastAddress subnetInfo
    = dotted (Z.lor (valueOf (networkAddress subnetInfo))
                    (complement32 (valueOf "255.255.255.0"))) /\
    (forall k, (k < 4)%nat ->
       octetZ (networkAddress subnetInfo) k
       = Z.land (octetZ "192.168.1.77" k) (octetZ "255.255.255.0" k) /\
       octetZ (broadcastAddress subnetInfo) k
       = Z.lor (octetZ (networkAddress subnetInfo) k) (255 - octetZ "255.255.255.0" k)).
Proof.
  apply (calculate_network_and_broadcast "192.168.1.77" "255.255.255.0"); reflexivity.
Defined.

(** C2.  The claim gives prefix 0 the all-zero mask.  The source shifts by
    32 - 0 = 32 places, a shift count that the language reduces modulo 32 to
    no shift at all: [cidrToSubnetMask 0] is "255.255.255.255", while the
    mask with no leading 1-bits prints as "0.0.0.0".  (Prefixes 1 to 32 and
    the range error are as claimed: [cidrToSubnetMask_positive],
    [cidrToSubnetMask_out_of_range].) *)
Theorem cidrToSubnetMask_of_zero :
  cidrToSubnetMask (Int 0) = Return "255.255.255.255" /\
  dotted (prefixMask 0) = "0.0.0.0".
Proof. split; reflexivity. Qed.

(** C3.  For a valid network address, a mask of prefix [cidr] and a desired
    count n >= 1 with cidr + ceil(log2 n) <= 30, [calculateSubnets] returns
    exactly 2^ceil(log2 n) members; member i (from 0) has subnetId i + 1,
    the network address  base + i * size  wrapped to 32 bits, where
    size = 2^(32 - newPrefix), the broadcast address  network + size - 1,
    and the host range from network + 1 to broadcast - 1. *)
Theorem calculateSubnets_members (ip mask : string) (cidr n : Z) :
  isValidIPv4 ip = true ->
  subnetMaskToCIDR mask = Return cidr ->
  1 <= n ->
  cidr + Z.log2_up n <= 30 ->
  let size := 2 ^ (32 - (cidr + Z.log2_up n)) in
  exists result,
    calculateSubnets ip mask (Int n) = Return result /\
    Z.of_nat (List.length (subnetDetails result)) = 2 ^ Z.log2_up n /\
    forall i, 0 <= i < 2 ^ Z.log2_up n ->
      exists member,
        nth_error (subnetDetails result) (Z.to_nat i) = Some member /\
        subnetId member = Int (i + 1) /\
        subnetAddress member = dotted ((valueOf ip + i * size) mod 2 ^ 32) /\
        sdBroadcastAddress member
        = dotted ((valueOf (subnetAddress member) + (size - 1)) mod 2 ^ 32) /\
        hostAddressRange member
        = (dotted ((valueOf (subnetAddress member) + 1) mod 2 ^ 32) ++ " - "
           ++ dotted ((valueOf (sdBroadcastAddress member) - 1) mod 2 ^ 32))%string.
Proof.
  intros Hip Ec Hn Hb size.
  pose proof (subnetMaskToCIDR_Return_valid _ _ Ec) as Hm.
  destruct (calculateSubnets_partition ip mask cidr n Hip Hm Ec Hn Hb)
    as (subnetInfo & _ & E).
  eexists. split; [exact E|]. cbn [subnetDetails].
  pose proof (Z.log2_up_nonneg n) as Hl.
  assert (0 < 2 ^ Z.log2_up n) by (apply Z.pow_pos_nonneg; lia).
  split.
  - rewrite length_map, length_indicesFrom. lia.
  - intros i Hi. eexists. split.
    + rewrite nth_error_map, nth_error_indicesFrom by lia. reflexivity.
    + rewrite Z2Nat.id by lia. cbn [expectedMember subnetId subnetAddress
        sdBroadcastAddress hostAddressRange]. fold size.
      rewrite !valueOf_dotted, !Z.mod_mod by lia. auto.
Qed.

Lemma calculateSubnets_members_witness :
  exists result,
    calculateSubnets "10.0.0.0" "255.255.0.0" (Int 5) = Return result /\
    Z.of_nat (List.length (subnetDetails result)) = 8 /\
    forall i, 0 <= i < 8 ->
      exists member,
        nth_error (subnetDetails result) (Z.to_nat i) = Some member /\
        subnetId member = Int (i + 1) /\
        subnetAddress member = dotted ((valueOf "10.0.0.0" + i * 8192) mod 2 ^ 32) /\
        sdBroadcastAddress member
        = dotted ((valueOf (subnetAddress member) + (8192 - 1)) mod 2 ^ 32) /\
        hostAddressRange member
        = (dotted ((valueOf (subnetAddress member) + 1) mod 2 ^ 32) ++ " - "
           ++ dotted ((valueOf (sdBroadcastAddress member) - 1) mod 2 ^ 32))%string.
Proof.
  apply (calculateSubnets_members "10.0.0.0" "255.255.0.0" 16 5);
    [reflexivity | reflexivity | lia | vm_compute; discriminate].
Defined.

(** C4.  The claim has hostRange.first = networkAddress + 1 and
    hostRange.last = broadcastAddress - 1 in 32-bit arithmetic, with no
    octet outside 0..255.  [calculateHostRange] adds to and subtracts from
    the last octet alone: with the /32 mask, address 10.0.0.255 yields the
    first host "10.0.0.256" (the 32-bit successor is 10.0.1.0) and address
    10.0.0.0 yields the last host "10.0.0.-1" (the predecessor is
    9.255.255.255).  Neither text is an address. *)
Theorem calculate_hostRange_of_slash32 :
  (exists subnetInfo,
     calculate "10.0.0.255" "255.255.255.255" = Return subnetInfo /\
     networkAddress subnetInfo = "10.0.0.255" /\
     first (hostRange subnetInfo) = "10.0.0.256" /\
     isValidIPv4 (first (hostRange subnetInfo)) = false /\
     dotted ((valueOf (networkAddress subnetInfo) + 1) mod 2 ^ 32) = "10.0.1.0")
  /\
  (exists subnetInfo,
     calculate "10.0.0.0" "255.255.255.255" = Return subnetInfo /\
     broadcastAddress subnetInfo = "10.0.0.0" /\
     last (hostRange subnetInfo) = "10.0.0.-1" /\
     isValidIPv4 (last (hostRange subnetInfo)) = false /\
     dotted ((valueOf (broadcastAddress subnetInfo) - 1) mod 2 ^ 32) = "9.255.255.255").
Proof. split; eexists; repeat split. Qed.

(** C5.  The claim has decimalValue unsigned, in [0, 2^32 - 1].  The source
    builds it with [<<] and [|], which give a signed 32-bit integer: for
    192.168.1.0, whose value is 3232235776, [parseIPv4] stores -1062731520.
    (In general [parseIPv4_decimalValue]: 2^32 too low from 128.0.0.0 on.) *)
Theorem parseIPv4_decimalValue_is_signed :
  exists parsed,
    parseIPv4 "192.168.1.0" = Return parsed /\
    octets parsed = [Int 192; Int 168; Int 1; Int 0] /\
    decimalValue parsed = Int (-1062731520) /\
    valueOf "192.168.1.0" = 3232235776.
Proof. eexists. repeat split. Qed.

(** C6, as amended.  For a valid address, a mask of prefix [cidr] and an
    integer n >= 0, [calculateSubnets] ends in one of three ways: n = 0
    fails with the prefix range error that [cidrToSubnetMask] raises for
    -Infinity; n >= 1 with cidr + ceil(log2 n) > 30 fails with the capacity
    error; every other n >= 1 returns a result. *)
Theorem calculateSubnets_outcomes (ip mask : string) (cidr n : Z) :
  isValidIPv4 ip = true ->
  subnetMaskToCIDR mask = Return cidr ->
  0 <= n ->
  (n = 0 /\ calculateSubnets ip mask (Int n) = Throw (InvalidCIDRPrefix NInf))
  \/ (1 <= n /\ 30 < cidr + Z.log2_up n /\
      calculateSubnets ip mask (Int n) = Throw (TooManySubnets (Int n)))
  \/ (1 <= n /\ cidr + Z.log2_up n <= 30 /\
      exists result, calculateSubnets ip mask (Int n) = Return result).
Proof.
  intros Hip Ec Hn.
  pose proof (subnetMaskToCIDR_Return_valid _ _ Ec) as Hm.
  destruct (Z.eq_dec n 0) as [-> | Hn0].
  - left. split; [reflexivity|]. now apply calculateSubnets_zero.
  - right. destruct (Z.lt_ge_cases 30 (cidr + Z.log2_up n)).
    + left. split; [lia|]. split; [assumption|].
      apply (calculateSubnets_capacity ip mask cidr n); try assumption; lia.
    + right. split; [lia|]. split; [assumption|].
      destruct (calculateSubnets_partition ip mask cidr n Hip Hm Ec) as (s & _ & E);
        try lia. eauto.
Qed.

Lemma calculateSubnets_outcomes_witness :
  (8 = 0 /\
   calculateSubnets "10.0.0.0" "255.255.255.248" (Int 8) = Throw (InvalidCIDRPrefix NInf))
  \/ (1 <= 8 /\ 30 < 29 + Z.log2_up 8 /\
      calculateSubnets "10.0.0.0" "255.255.255.248" (Int 8) = Throw (TooManySubnets (Int 8)))
  \/ (1 <= 8 /\ 29 + Z.log2_up 8 <= 30 /\
      exists result,
        calculateSubnets "10.0.0.0" "255.255.255.248" (Int 8) = Return result).
Proof.
  apply (calculateSubnets_outcomes "10.0.0.0" "255.255.255.248" 29 8);
    [reflexivity | reflexivity | lia].
Defined.

(** C6, the claim as stated fails: a negative count is below 1, and
    [calculateSubnets] returns for it, with an empty list of members
    (log2 of a negative number is NaN, and no comparison with NaN holds). *)
Lemma calculateSubnets_negative_count_returns :
  isValidIPv4 "10.0.0.0" = true /\ isValidIPv4 "255.255.0.0" = true /\ -1 < 1 /\
  (exists result,
     calculateSubnets "10.0.0.0" "255.255.0.0" (Int (-1)) = Return result /\
     subnetDetails result = []) /\
  ~ (exists e, calculateSubnets "10.0.0.0" "255.255.0.0" (Int (-1)) = Throw e).
Proof.
  split; [reflexivity|]. split; [reflexivity|]. split; [lia|]. split.
  - eexists. split; reflexivity.
  - intros (e & E). vm_compute in E. discriminate E.
Qed.

(** C7.  The claim has the result be the mask of prefix
    32 - ceil(log2(requiredHosts + 2)) whenever that prefix is >= 0.  For
    4294967294 hosts the prefix is 0, whose mask is "0.0.0.0"; the source
    answers "255.255.255.255", through [cidrToSubnetMask 0].  (Every other
    count from 1 on is as claimed: [calculateSubnetMaskFromHostCount_cases].) *)
Theorem calculateSubnetMaskFromHostCount_near_2_32 :
  calculateSubnetMaskFromHostCount (Int 4294967294) = Return "255.255.255.255" /\
  32 - Z.log2_up (4294967294 + 2) = 0 /\
  dotted (prefixMask 0) = "0.0.0.0".
Proof. repeat split. Qed.

(** C8.  The claim has prefix -> mask -> prefix be the identity on 0..32.
    At 0 the round trip gives 32, since [cidrToSubnetMask 0] is the all-ones
    mask.  (From 1 to 32 it is the identity: [round_trip_positive].) *)
Theorem round_trip_of_zero :
  (mask <- cidrToSubnetMask (Int 0) ;; subnetMaskToCIDR mask) = Return 32.
Proof. reflexivity. Qed.

(** C9, as amended.  For every valid address text of value v and every
    integer delta of magnitude at most 2^53 - 2^31 (so that the
    double-precision sum is exact), [addToIP] returns the dotted-decimal text
    of (v + delta) modulo 2^32, with no bounds check and no error. *)
Theorem addToIP_wraps (ip : string) (delta : Z) :
  isValidIPv4 ip = true ->
  Z.abs delta <= 2 ^ 53 - 2 ^ 31 ->
  addToIP ip (Int delta) = Return (dotted ((valueOf ip + delta) mod 2 ^ 32)).
Proof.
  intros H Hd. unfold addToIP.
  destruct (parseIPv4_valid ip H) as (parsed & -> & _ & _ & Edv).
  cbn [bind]. rewrite Edv. cbn [add]. unfold of_exact.
  pose proof (wrap_int32_range (valueOf ip)) as Hw.
  rewrite round53_exact_le by lia.
  assert (2 ^ 53 < 2 ^ 1024) by (apply Z.pow_lt_mono_r; lia).
  destruct (Z.leb_spec (2 ^ 1024) (wrap_int32 (valueOf ip) + delta)); [lia|].
  destruct (Z.leb_spec (wrap_int32 (valueOf ip) + delta) (- 2 ^ 1024)); [lia|].
  rewrite print_bytesOf, dotted_mod32. f_equal. apply dotted_mod.
  rewrite <- Z.add_mod_idemp_l, wrap_int32_mod, Z.add_mod_idemp_l by lia.
  reflexivity.
Qed.

Lemma addToIP_wraps_witness :
  addToIP "0.0.0.0" (Int (-1)) = Return "255.255.255.255".
Proof.
  exact (addToIP_wraps "0.0.0.0" (-1) eq_refl ltac:(vm_compute; discriminate)).
Defined.

(** C9, the claim as stated fails: 2^53 is an integer, and adding it to
    the value 1 of 0.0.0.1 rounds to 2^53 in double precision; [addToIP]
    prints "0.0.0.0" where (1 + 2^53) modulo 2^32 is 1. *)
Lemma addToIP_inexact_sum :
  isValidIPv4 "0.0.0.1" = true /\
  addToIP "0.0.0.1" (Int (2 ^ 53)) = Return "0.0.0.0" /\
  dotted ((valueOf "0.0.0.1" + 2 ^ 53) mod 2 ^ 32) = "0.0.0.1" /\
  addToIP "0.0.0.1" (Int (2 ^ 53))
  <> Return (dotted ((valueOf "0.0.0.1" + 2 ^ 53) mod 2 ^ 32)).
Proof. repeat split. intros E. vm_compute in E. discriminate E. Qed.

(** C10.  For every syntactically valid mask text, contiguous or not,
    [subnetMaskToCIDR] returns, without error, the number of 1-bits of its
    four octets, which is the population count of the 32-bit value. *)
Theorem subnetMaskToCIDR_counts_bits (mask : string) :
  isValidIPv4 mask = true ->
  subnetMaskToCIDR mask
  = Return (popcount 8 (octetZ mask 0) + popcount 8 (octetZ mask 1)
            + popcount 8 (octetZ mask 2) + popcount 8 (octetZ mask 3))
  /\ popcount 8 (octetZ mask 0) + popcount 8 (octetZ mask 1)
     + popcount 8 (octetZ mask 2) + popcount 8 (octetZ mask 3)
     = popcount 32 (valueOf mask).
Proof.
  intros H. split; [now apply subnetMaskToCIDR_valid|].
  rewrite popcount_bytes.
  destruct (octetZ_valid mask H) as (-> & -> & -> & ->). reflexivity.
Qed.

Lemma subnetMaskToCIDR_counts_bits_witness :
  subnetMaskToCIDR "255.0.255.0" = Return 16 /\ 16 = popcount 32 (valueOf "255.0.255.0").
Proof. exact (subnetMaskToCIDR_counts_bits "255.0.255.0" eq_refl). Defined.

(* ================================================================== *)
(** * Further properties of the code *)

(** ** isValidIPv4 *)

Lemma isDigit_in (c : ascii) : isDigit c = true -> In c digits.
Proof.
  unfold isDigit. intros H. apply andb_true_iff in H as [H1 H2].
  apply Nat.leb_le in H1, H2.
  rewrite <- (ascii_nat_embedding c).
  assert (E : (nat_of_ascii c = 48 \/ nat_of_ascii c = 49 \/ nat_of_ascii c = 50
               \/ nat_of_ascii c = 51 \/ nat_of_ascii c = 52 \/ nat_of_ascii c = 53
               \/ nat_of_ascii c = 54 \/ nat_of_ascii c = 55 \/ nat_of_ascii c = 56
               \/ nat_of_ascii c = 57)%nat) by lia.
  repeat (destruct E as [E | E]; [rewrite E; cbn; tauto|]).
  rewrite E. cbn. tauto.
Qed.

Lemma isGroup_digitStrings (g : string) : isGroup g = true -> In g digitStrings.
Proof.
  unfold isGroup. intros H.
  apply andb_true_iff in H as [H _]. apply andb_true_iff in H as [H D].
  apply andb_true_iff in H as [L1 L3].
  unfold digitStrings. rewrite !in_app_iff.
  destruct g as [|a [|b [|c [|d g]]]]; cbn in L1, L3; try discriminate.
  - left. cbn [allDigits] in D. apply andb_true_iff in D as [Da _].
    apply in_map_iff. exists a. split; [reflexivity | now apply isDigit_in].
  - right. left. cbn [allDigits] in D.
    apply andb_true_iff in D as [Da D]. apply andb_true_iff in D as [Db _].
    apply in_flat_map. exists a. split; [now apply isDigit_in|].
    apply in_map_iff. exists b. split; [reflexivity | now apply isDigit_in].
  - right. right. cbn [allDigits] in D.
    apply andb_true_iff in D as [Da D]. apply andb_true_iff in D as [Db D].
    apply andb_true_iff in D as [Dc _].
    apply in_flat_map. exists a. split; [now apply isDigit_in|].
    apply in_flat_map. exists b. split; [now apply isDigit_in|].
    apply in_map_iff. exists c. split; [reflexivity | now apply isDigit_in].
Qed.

Lemma digitStrings_in_pattern : forallb groupInPattern digitStrings = true.
Proof. vm_compute. reflexivity. Qed.

Lemma pattern_groups_checked : forallb patternGroupOk (lang octetPattern) = true.
Proof. vm_compute. reflexivity. Qed.

Lemma pattern_group_facts (g : string) :
  In g (lang octetPattern) ->
  isGroup g = true /\ freeOf "/" g = true /\ parseInt10 g = Int (decimalOf g 0).
Proof.
  intros H. pose proof pattern_groups_checked as A. rewrite forallb_forall in A.
  specialize (A g H). unfold patternGroupOk in A.
  apply andb_true_iff in A as [A P]. apply andb_true_iff in A as [G F].
  auto using strict_eq_Int.
Qed.

Lemma in_pattern_iff_isGroup (g : string) :
  In g (lang octetPattern) <-> isGroup g = true.
Proof.
  split.
  - intros H. now apply pattern_group_facts.
  - intros H. pose proof digitStrings_in_pattern as A. rewrite forallb_forall in A.
    specialize (A g (isGroup_digitStrings g H)). unfold groupInPattern in A.
    rewrite H in A. cbn [implb] in A. apply existsb_exists in A as (x & Hx & E).
    apply String.eqb_eq in E. now subst.
Qed.

(** X1.  [isValidIPv4] accepts exactly the texts made of four groups
    separated by dots, each group one to three decimal digits (leading zeros
    allowed) of value at most 255. *)
Theorem isValidIPv4_iff_four_groups (s : string) :
  isValidIPv4 s = true <->
  exists a b c d,
    s = (a ++ "." ++ b ++ "." ++ c ++ "." ++ d)%string /\
    isGroup a = true /\ isGroup b = true /\ isGroup c = true /\ isGroup d = true.
Proof.
  rewrite isValidIPv4_shape. split.
  - intros (a & b & c & d & E & Ha & Hb & Hc & Hd).
    exists a, b, c, d. rewrite <- !in_pattern_iff_isGroup. auto.
  - intros (a & b & c & d & E & Ha & Hb & Hc & Hd).
    exists a, b, c, d. rewrite !in_pattern_iff_isGroup. auto.
Qed.

(** ** parseIPv4 and ipToBinaryString *)

Lemma ToUint32_wrap_int32 (z : Z) : 0 <= z < 2 ^ 32 -> ToUint32 (Int (wrap_int32 z)) = z.
Proof.
  intros H. cbn [ToUint32]. rewrite wrap_int32_mod. now apply Z.mod_small.
Qed.

(** X2.  [parseIPv4] throws on exactly the texts [isValidIPv4] rejects.
    On every other text it returns a record that keeps the text, holds four
    octets from 0 to 255, and whose decimalValue, read as an unsigned 32-bit
    integer, is  o0 * 2^24 + o1 * 2^16 + o2 * 2^8 + o3. *)
Theorem parseIPv4_outcome (ip : string) :
  (isValidIPv4 ip = false /\ parseIPv4 ip = Throw (InvalidIPv4Address ip))
  \/ (isValidIPv4 ip = true /\
      exists parsed o0 o1 o2 o3,
        parseIPv4 ip = Return parsed /\
        address parsed = ip /\
        octets parsed = [Int o0; Int o1; Int o2; Int o3] /\
        0 <= o0 <= 255 /\ 0 <= o1 <= 255 /\ 0 <= o2 <= 255 /\ 0 <= o3 <= 255 /\
        ToUint32 (decimalValue parsed) = o0 * 2 ^ 24 + o1 * 2 ^ 16 + o2 * 2 ^ 8 + o3).
Proof.
  destruct (isValidIPv4 ip) eqn:H.
  - right. split; [reflexivity|].
    destruct (parseIPv4_valid ip H) as (parsed & E & Ea & Eo & Ed).
    destruct (valid_octets ip H) as (o0 & o1 & o2 & o3 & Ev & H0 & H1 & H2 & H3).
    exists parsed, o0, o1, o2, o3. rewrite Eo, Ed, (valueOf_octets _ _ _ _ _ Ev).
    repeat (split; [assumption|]).
    apply ToUint32_wrap_int32. now apply pack_range.
  - left. split; [reflexivity|]. now apply parseIPv4_invalid.
Qed.

Lemma string_length_append (a b : string) :
  String.length (a ++ b) = (String.length a + String.length b)%nat.
Proof. induction a as [|x a IH]; simpl; [reflexivity | now rewrite IH]. Qed.

Lemma bitsValue_shift (s : string) :
  forall acc,
    bitsValue s acc
    = option_map (fun v => acc * 2 ^ Z.of_nat (String.length s) + v) (bitsValue s 0).
Proof.
  induction s as [|c s IH]; intros acc.
  - cbn. f_equal. lia.
  - cbn [bitsValue String.length]. rewrite Nat2Z.inj_succ, Z.pow_succ_r by lia.
    destruct (Ascii.eqb c "0"); [|destruct (Ascii.eqb c "1")].
    + rewrite (IH (2 * acc)), (IH (2 * 0)).
      destruct (bitsValue s 0); cbn [option_map]; [f_equal; lia | reflexivity].
    + rewrite (IH (2 * acc + 1)), (IH (2 * 0 + 1)).
      destruct (bitsValue s 0); cbn [option_map]; [f_equal; lia | reflexivity].
    + reflexivity.
Qed.

Lemma bitsValue_append (a b : string) (acc : Z) :
  bitsValue (a ++ b) acc
  = match bitsValue a acc with Some v => bitsValue b v | None => None end.
Proof.
  revert acc. induction a as [|c a IH]; intros acc; [reflexivity|].
  cbn [append bitsValue].
  destruct (Ascii.eqb c "0"); [|destruct (Ascii.eqb c "1")]; auto.
Qed.

Lemma binaryOctets_checked : forallb binaryOctetOk allOctets = true.
Proof. vm_compute. reflexivity. Qed.

Lemma binaryOctet_facts (o acc : Z) :
  0 <= o <= 255 ->
  String.length (padStart 8 "0" (toString2 (Int o))) = 8%nat /\
  bitsValue (padStart 8 "0" (toString2 (Int o))) acc = Some (acc * 256 + o).
Proof.
  intros Ho. pose proof (octet_cases _ binaryOctets_checked o Ho) as H.
  unfold binaryOctetOk in H. apply andb_true_iff in H as [L V].
  apply Nat.eqb_eq in L. split; [assumption|].
  rewrite bitsValue_shift, L.
  destruct (bitsValue _ 0) as [v|]; [|discriminate].
  apply Z.eqb_eq in V. subst v. reflexivity.
Qed.

(** X3.  For a valid address text [ipToBinaryString] returns 32 binary
    digits whose value is the 32-bit value of the address. *)
Theorem ipToBinaryString_value (ip : string) :
  isValidIPv4 ip = true ->
  exists bits,
    ipToBinaryString ip = Return bits /\
    String.length bits = 32%nat /\
    bitsValue bits 0 = Some (valueOf ip).
Proof.
  intros H. unfold ipToBinaryString, parseIPv4. rewrite H. cbn [negb bind binaryOctets].
  destruct (valid_octets ip H) as (o0 & o1 & o2 & o3 & E & H0 & H1 & H2 & H3).
  rewrite (valueOf_octets _ _ _ _ _ E), E. cbn [map].
  set (b0 := padStart 8 "0" (toString2 (Int o0))).
  set (b1 := padStart 8 "0" (toString2 (Int o1))).
  set (b2 := padStart 8 "0" (toString2 (Int o2))).
  set (b3 := padStart 8 "0" (toString2 (Int o3))).
  change (join EmptyString [b0; b1; b2; b3]) with (b0 ++ (b1 ++ (b2 ++ b3)))%string.
  eexists. split; [reflexivity|].
  destruct (binaryOctet_facts o0 0 H0) as [L0 V0].
  destruct (binaryOctet_facts o1 (0 * 256 + o0) H1) as [L1 V1].
  destruct (binaryOctet_facts o2 ((0 * 256 + o0) * 256 + o1) H2) as [L2 V2].
  destruct (binaryOctet_facts o3 (((0 * 256 + o0) * 256 + o1) * 256 + o2) H3) as [L3 V3].
  fold b0 in L0, V0. fold b1 in L1, V1. fold b2 in L2, V2. fold b3 in L3, V3.
  rewrite !string_length_append, L0, L1, L2, L3.
  rewrite bitsValue_append, V0. rewrite bitsValue_append, V1.
  rewrite bitsValue_append, V2. rewrite V3.
  split; [reflexivity|]. f_equal. unfold pack. lia.
Qed.

Lemma ipToBinaryString_value_witness :
  exists bits,
    ipToBinaryString "192.168.1.10" = Return bits /\
    String.length bits = 32%nat /\
    bitsValue bits 0 = Some (valueOf "192.168.1.10").
Proof. apply (ipToBinaryString_value "192.168.1.10"). reflexivity. Defined.

(** ** calculateWildcardMask *)

Lemma complement32_range (m : Z) : 0 <= complement32 m < 2 ^ 32.
Proof. unfold complement32. apply Z.mod_pos_bound. lia. Qed.

Lemma complement32_value (m : Z) : 0 <= m < 2 ^ 32 -> complement32 m = 2 ^ 32 - 1 - m.
Proof.
  intros H. unfold complement32, Z.lnot. Z.div_mod_to_equations. lia.
Qed.

Lemma calculateWildcardMask_valid (mask : string) :
  isValidIPv4 mask = true ->
  calculateWildcardMask mask = dotted (complement32 (valueOf mask)).
Proof.
  intros Hm.
  destruct (valid_octets mask Hm) as (m0 & m1 & m2 & m3 & Em & ? & ? & ? & ?).
  unfold calculateWildcardMask. rewrite (valueOf_octets _ _ _ _ _ Em), Em.
  cbn [map]. rewrite !sub_Int by lia.
  rewrite dotted_print4, !byte_complement32 by lia.
  destruct (byte_pack m0 m1 m2 m3) as (-> & -> & -> & ->); try assumption.
  reflexivity.
Qed.

(** X4.  For a valid mask text [calculateWildcardMask] prints the 32-bit
    complement of the mask, a valid address text; applied twice it gives
    the mask back in canonical form. *)
Theorem calculateWildcardMask_complement (mask : string) :
  isValidIPv4 mask = true ->
  calculateWildcardMask mask = dotted (2 ^ 32 - 1 - valueOf mask) /\
  isValidIPv4 (calculateWildcardMask mask) = true /\
  calculateWildcardMask (calculateWildcardMask mask) = dotted (valueOf mask).
Proof.
  intros Hm. pose proof (valueOf_range mask Hm) as R.
  rewrite calculateWildcardMask_valid by assumption.
  rewrite complement32_value by assumption.
  split; [reflexivity|]. split; [apply dotted_valid|].
  rewrite calculateWildcardMask_valid by apply dotted_valid.
  rewrite valueOf_dotted, Z.mod_small by lia.
  rewrite complement32_value by lia. f_equal. lia.
Qed.

Lemma calculateWildcardMask_complement_witness :
  calculateWildcardMask "255.255.240.0" = dotted (2 ^ 32 - 1 - valueOf "255.255.240.0") /\
  isValidIPv4 (calculateWildcardMask "255.255.240.0") = true /\
  calculateWildcardMask (calculateWildcardMask "255.255.240.0")
  = dotted (valueOf "255.255.240.0").
Proof. apply (calculateWildcardMask_complement "255.255.240.0"). reflexivity. Defined.

(** ** calculate *)

(** Equations between bitwise expressions over 32-bit masks, bit by bit. *)
Ltac by_bits :=
  apply Z.bits_inj'; intros ?i ?Hi;
  repeat (rewrite ?Z.lor_spec, ?Z.land_spec, ?Z.lnot_spec, ?Z.bits_0 by lia;
          rewrite ?Z.testbit_ones_nonneg by lia);
  repeat match goal with
         | |- context [Z.testbit ?x ?j] => destruct (Z.testbit x j)
         end;
  repeat match goal with
         | |- context [?a <? ?b] => destruct (a <? b)
         end;
  reflexivity.

Lemma complement32_bits (m : Z) : complement32 m = Z.land (Z.lnot m) (Z.ones 32).
Proof. unfold complement32. now rewrite Z.land_ones by lia. Qed.

Lemma uint32_bits (v : Z) : 0 <= v < 2 ^ 32 -> v = Z.land v (Z.ones 32).
Proof. intros H. rewrite Z.land_ones by lia. symmetry. now apply Z.mod_small. Qed.

Lemma lor_range32 (x y : Z) : 0 <= x < 2 ^ 32 -> 0 <= y < 2 ^ 32 -> 0 <= Z.lor x y < 2 ^ 32.
Proof.
  intros Hx Hy. split; [apply Z.lor_nonneg; lia|].
  assert (E : Z.lor x y = Z.land (Z.lor x y) (Z.ones 32)).
  { rewrite (uint32_bits x Hx) at 1. rewrite (uint32_bits y Hy) at 1. by_bits. }
  rewrite E, Z.land_ones by lia. apply Z.mod_pos_bound. lia.
Qed.

(** Network part and host part of an address add up to the address, and
    the broadcast address is the network part plus the whole host range. *)
Lemma split_by_mask (v m : Z) :
  0 <= v < 2 ^ 32 ->
  v = Z.land v m + Z.land v (complement32 m) /\
  Z.lor (Z.land v m) (complement32 m) = Z.land v m + complement32 m /\
  0 <= Z.land v (complement32 m) <= complement32 m.
Proof.
  intros Hv. rewrite complement32_bits. repeat split.
  - rewrite <- Z.or_to_plus.
    + rewrite (uint32_bits v Hv). by_bits.
    + by_bits.
  - apply Z.or_to_plus. by_bits.
  - apply Z.land_nonneg. lia.
  - assert (E : Z.land (Z.lnot m) (Z.ones 32)
                = Z.land v (Z.land (Z.lnot m) (Z.ones 32))
                  + Z.land (Z.lnot v) (Z.land (Z.lnot m) (Z.ones 32))).
    { rewrite <- Z.or_to_plus; by_bits. }
    assert (0 <= Z.land (Z.lnot v) (Z.land (Z.lnot m) (Z.ones 32))).
    { apply Z.land_nonneg. right. apply Z.land_nonneg. right. cbn. lia. }
    lia.
Qed.

Lemma calculate_values (ip mask : string) :
  isValidIPv4 ip = true -> isValidIPv4 mask = true ->
  exists subnetInfo,
    calculate ip mask = Return subnetInfo /\
    networkAddress subnetInfo = dotted (Z.land (valueOf ip) (valueOf mask)) /\
    broadcastAddress subnetInfo
    = dotted (Z.land (valueOf ip) (valueOf mask) + complement32 (valueOf mask)) /\
    valueOf (networkAddress subnetInfo) = Z.land (valueOf ip) (valueOf mask) /\
    valueOf (broadcastAddress subnetInfo)
    = Z.land (valueOf ip) (valueOf mask) + complement32 (valueOf mask) /\
    hostRange subnetInfo
    = calculateHostRange (networkAddress subnetInfo) (broadcastAddress subnetInfo).
Proof.
  intros Hi Hm.
  destruct (calculate_valid ip mask Hi Hm) as (subnetInfo & E & En & Eb & Eh).
  exists subnetInfo. split; [assumption|].
  pose proof (valueOf_range ip Hi) as Ri.
  pose proof (land_range32 (valueOf ip) (valueOf mask) Ri) as Rn.
  pose proof (complement32_range (valueOf mask)) as Rc.
  destruct (split_by_mask (valueOf ip) (valueOf mask) Ri) as (_ & Eor & _).
  assert (En' : networkAddress subnetInfo = dotted (Z.land (valueOf ip) (valueOf mask))).
  { rewrite En. now apply calculateNetworkAddress_valid. }
  assert (Vn : valueOf (networkAddress subnetInfo) = Z.land (valueOf ip) (valueOf mask)).
  { rewrite En', valueOf_dotted. now apply Z.mod_small. }
  assert (Eb' : broadcastAddress subnetInfo
                = dotted (Z.land (valueOf ip) (valueOf mask) + complement32 (valueOf mask))).
  { rewrite Eb, calculateBroadcastAddress_valid, Vn, Eor; try assumption; [reflexivity|].
    rewrite En'. apply dotted_valid. }
  repeat (split; [assumption|]). split; [|assumption].
  rewrite Eb', valueOf_dotted. apply Z.mod_small.
  rewrite <- Eor. now apply lor_range32.
Qed.

(** X5.  For a valid address and mask, the address lies between the
    network and the broadcast address that [calculate] returns, the two are
    as far apart as the complement of the mask says, and the network
    address has no bit outside the mask. *)
Theorem calculate_block_bounds (ip mask : string) :
  isValidIPv4 ip = true -> isValidIPv4 mask = true ->
  exists subnetInfo,
    calculate ip mask = Return subnetInfo /\
    valueOf (networkAddress subnetInfo) <= valueOf ip
      <= valueOf (broadcastAddress subnetInfo) /\
    valueOf (broadcastAddress subnetInfo) - valueOf (networkAddress subnetInfo)
    = 2 ^ 32 - 1 - valueOf mask /\
    Z.land (valueOf (networkAddress subnetInfo)) (valueOf mask)
    = valueOf (networkAddress subnetInfo).
Proof.
  intros Hi Hm.
  destruct (calculate_values ip mask Hi Hm) as (subnetInfo & E & _ & _ & Vn & Vb & _).
  exists subnetInfo. split; [assumption|]. rewrite Vn, Vb.
  pose proof (valueOf_range ip Hi) as Ri. pose proof (valueOf_range mask Hm) as Rm.
  destruct (split_by_mask (valueOf ip) (valueOf mask) Ri) as (Es & _ & Rh).
  rewrite <- (complement32_value _ Rm).
  split; [lia|]. split; [lia|].
  rewrite <- Z.land_assoc. now rewrite Z.land_diag.
Qed.

Lemma calculate_block_bounds_witness :
  exists subnetInfo,
    calculate "172.16.37.9" "255.255.240.0" = Return subnetInfo /\
    valueOf (networkAddress subnetInfo) <= valueOf "172.16.37.9"
      <= valueOf (broadcastAddress subnetInfo) /\
    valueOf (broadcastAddress subnetInfo) - valueOf (networkAddress subnetInfo)
    = 2 ^ 32 - 1 - valueOf "255.255.240.0" /\
    Z.land (valueOf (networkAddress subnetInfo)) (valueOf "255.255.240.0")
    = valueOf (networkAddress subnetInfo).
Proof.
  apply (calculate_block_bounds "172.16.37.9" "255.255.240.0"); reflexivity.
Defined.

Lemma calculate_by_network (ip1 ip2 mask : string) :
  isValidIPv4 ip1 = true -> isValidIPv4 ip2 = true -> isValidIPv4 mask = true ->
  Z.land (valueOf ip1) (valueOf mask) = Z.land (valueOf ip2) (valueOf mask) ->
  calculate ip1 mask = calculate ip2 mask.
Proof.
  intros H1 H2 Hm E. unfold calculate. rewrite H1, H2, Hm. cbn [negb].
  rewrite !calculateNetworkAddress_valid, E by assumption. reflexivity.
Qed.

(** X6.  [calculate] depends on the address only through its network
    part: two valid addresses that agree under the mask get the same
    SubnetInfo, and [calculate] applied to the networkAddress it returned
    returns the same SubnetInfo again. *)
Theorem calculate_same_block (ip1 ip2 mask : string) :
  isValidIPv4 ip1 = true -> isValidIPv4 ip2 = true -> isValidIPv4 mask = true ->
  Z.land (valueOf ip1) (valueOf mask) = Z.land (valueOf ip2) (valueOf mask) ->
  calculate ip1 mask = calculate ip2 mask /\
  exists subnetInfo,
    calculate ip1 mask = Return subnetInfo /\
    calculate (networkAddress subnetInfo) mask = Return subnetInfo.
Proof.
  intros H1 H2 Hm E. split; [now apply calculate_by_network|].
  destruct (calculate_values ip1 mask H1 Hm) as (subnetInfo & Ec & En & _ & Vn & _).
  exists subnetInfo. split; [assumption|]. rewrite <- Ec.
  apply calculate_by_network; try assumption.
  - rewrite En. apply dotted_valid.
  - rewrite Vn, <- Z.land_assoc. now rewrite Z.land_diag.
Qed.

Lemma calculate_same_block_witness :
  calculate "10.1.2.3" "255.255.0.0" = calculate "10.1.200.77" "255.255.0.0" /\
  exists subnetInfo,
    calculate "10.1.2.3" "255.255.0.0" = Return subnetInfo /\
    calculate (networkAddress subnetInfo) "255.255.0.0" = Return subnetInfo.
Proof.
  apply (calculate_same_block "10.1.2.3" "10.1.200.77" "255.255.0.0"); reflexivity.
Defined.

(** X7.  [calculate] checks the address before the mask, and
    [calculateSubnets] fails in the same two ways before it looks at the
    desired count: an invalid address gives the address error whatever the
    mask is, a valid address with an invalid mask gives the mask error, and
    with both valid [calculate] returns. *)
Theorem calculate_validation_order (ip mask : string) (desiredSubnets : number) :
  (isValidIPv4 ip = false /\
   calculate ip mask = Throw (InvalidIPAddress ip) /\
   calculateSubnets ip mask desiredSubnets = Throw (InvalidIPAddress ip))
  \/ (isValidIPv4 ip = true /\ isValidIPv4 mask = false /\
      calculate ip mask = Throw (InvalidSubnetMask mask) /\
      calculateSubnets ip mask desiredSubnets = Throw (InvalidSubnetMask mask))
  \/ (isValidIPv4 ip = true /\ isValidIPv4 mask = true /\
      exists subnetInfo, calculate ip mask = Return subnetInfo).
Proof.
  destruct (isValidIPv4 ip) eqn:Hi; [right|left].
  - destruct (isValidIPv4 mask) eqn:Hm; [right|left].
    + repeat (split; [reflexivity|]).
      destruct (calculate_valid ip mask Hi Hm) as (s & E & _). eauto.
    + assert (E : calculate ip mask = Throw (InvalidSubnetMask mask))
        by (unfold calculate; now rewrite Hi, Hm).
      repeat (split; [reflexivity|]). split; [assumption|].
      unfold calculateSubnets. now rewrite E.
  - assert (E : calculate ip mask = Throw (InvalidIPAddress ip))
      by (unfold calculate; now rewrite Hi).
    split; [reflexivity|]. split; [assumption|].
    unfold calculateSubnets. now rewrite E.
Qed.

(** ** calculate on the masks that cidrToSubnetMask makes *)

Lemma prefixMask_range (p : Z) : 0 <= p <= 32 -> 0 <= prefixMask p < 2 ^ 32.
Proof.
  intros Hp. unfold prefixMask.
  assert (0 < 2 ^ (32 - p)) by (apply Z.pow_pos_nonneg; lia).
  assert (2 ^ (32 - p) <= 2 ^ 32) by (apply Z.pow_le_mono_r; lia). lia.
Qed.

Lemma prefix_mask_text (p : Z) :
  1 <= p <= 32 ->
  cidrToSubnetMask (Int p) = Return (dotted (prefixMask p)) /\
  isValidIPv4 (dotted (prefixMask p)) = true /\
  valueOf (dotted (prefixMask p)) = prefixMask p /\
  subnetMaskToCIDR (dotted (prefixMask p)) = Return p.
Proof.
  intros Hp. pose proof (cidrToSubnetMask_positive p Hp) as E.
  split; [assumption|]. split; [apply dotted_valid|]. split.
  - rewrite valueOf_dotted. apply Z.mod_small, prefixMask_range. lia.
  - pose proof (round_trip_positive p Hp) as R. rewrite E in R. exact R.
Qed.

Lemma even_last_octet (x : Z) : x mod 2 = 0 -> byte x 0 < 255.
Proof.
  intros H. unfold byte. change (2 ^ (8 * 0)) with 1. rewrite Z.div_1_r.
  Z.div_mod_to_equations. lia.
Qed.

Lemma odd_last_octet (x : Z) : x mod 2 = 1 -> 0 < byte x 0.
Proof.
  intros H. unfold byte. change (2 ^ (8 * 0)) with 1. rewrite Z.div_1_r.
  Z.div_mod_to_equations. lia.
Qed.

Lemma land_prefixMask_even (v p : Z) :
  0 <= p <= 31 -> Z.land v (prefixMask p) mod 2 = 0.
Proof.
  intros Hp. rewrite <- Z.bit0_mod, Z.land_spec, prefixMask_bits by lia.
  destruct (Z.leb_spec (32 - p) 0); [lia|]. now rewrite andb_false_r.
Qed.

Lemma pow2_even (e : Z) : 1 <= e -> 2 ^ e mod 2 = 0.
Proof.
  intros He. replace e with (1 + (e - 1)) by lia.
  rewrite Z.pow_add_r by lia. change (2 ^ 1) with 2.
  rewrite Z.mul_comm. apply Z.mod_mul. lia.
Qed.

(** X8.  For a prefix p from 1 to 30 and a valid address, [calculate] on
    the mask that [cidrToSubnetMask] makes for p reports p back in the CIDR
    notation and counts 2^(32 - p) - 2 hosts, which is the number of
    addresses strictly between the network and the broadcast address. *)
Theorem calculate_on_prefix_mask (ip : string) (p : Z) :
  isValidIPv4 ip = true -> 1 <= p <= 30 ->
  exists mask subnetInfo,
    cidrToSubnetMask (Int p) = Return mask /\
    calculate ip mask = Return subnetInfo /\
    cidrNotation subnetInfo
    = (networkAddress subnetInfo ++ "/" ++ toString (Int p))%string /\
    numberOfHosts subnetInfo = Int (2 ^ (32 - p) - 2) /\
    valueOf (broadcastAddress subnetInfo) - valueOf (networkAddress subnetInfo) - 1
    = 2 ^ (32 - p) - 2.
Proof.
  intros Hi Hp.
  destruct (prefix_mask_text p ltac:(lia)) as (Em & Hm & Vm & Ec).
  destruct (calculate_values ip _ Hi Hm) as (subnetInfo & E & _ & _ & Vn & Vb & _).
  exists (dotted (prefixMask p)), subnetInfo.
  split; [assumption|]. split; [assumption|].
  rewrite Vn, Vb, Vm, complement32_value by (apply prefixMask_range; lia).
  unfold calculate in E. rewrite Hi, Hm, Ec in E. cbn [negb bind] in E.
  injection E as <-. cbn [cidrNotation networkAddress numberOfHosts].
  split; [reflexivity|]. split.
  - unfold calculateNumberOfHosts, ge, lt, strict_eq.
    destruct (Z.ltb_spec 31 p); [lia|]. destruct (Z.eqb_spec p 31); [lia|].
    cbn [orb]. rewrite sub_Int by lia. rewrite pow2_exact by lia.
    apply sub_Int.
    assert (0 < 2 ^ (32 - p)) by (apply Z.pow_pos_nonneg; lia).
    assert (2 ^ (32 - p) <= 2 ^ 32) by (apply Z.pow_le_mono_r; lia). lia.
  - unfold prefixMask. lia.
Qed.

Lemma calculate_on_prefix_mask_witness :
  exists mask subnetInfo,
    cidrToSubnetMask (Int 20) = Return mask /\
    calculate "172.16.37.9" mask = Return subnetInfo /\
    cidrNotation subnetInfo
    = (networkAddress subnetInfo ++ "/" ++ toString (Int 20))%string /\
    numberOfHosts subnetInfo = Int (2 ^ (32 - 20) - 2) /\
    valueOf (broadcastAddress subnetInfo) - valueOf (networkAddress subnetInfo) - 1
    = 2 ^ (32 - 20) - 2.
Proof. apply (calculate_on_prefix_mask "172.16.37.9" 20); [reflexivity | lia]. Defined.

(** X9.  For a prefix p from 1 to 31 and a valid address, the host range
    that [calculate] returns on the mask of p is the 32-bit successor of the
    network address and the 32-bit predecessor of the broadcast address,
    both valid address texts. *)
Theorem calculate_hostRange_on_prefix_mask (ip : string) (p : Z) :
  isValidIPv4 ip = true -> 1 <= p <= 31 ->
  exists mask subnetInfo,
    cidrToSubnetMask (Int p) = Return mask /\
    calculate ip mask = Return subnetInfo /\
    first (hostRange subnetInfo) = dotted (valueOf (networkAddress subnetInfo) + 1) /\
    last (hostRange subnetInfo) = dotted (valueOf (broadcastAddress subnetInfo) - 1) /\
    isValidIPv4 (first (hostRange subnetInfo)) = true /\
    isValidIPv4 (last (hostRange subnetInfo)) = true.
Proof.
  intros Hi Hp.
  destruct (prefix_mask_text p ltac:(lia)) as (Em & Hm & Vm & Ec).
  destruct (calculate_values ip _ Hi Hm) as (subnetInfo & E & En & Eb & Vn & Vb & Eh).
  exists (dotted (prefixMask p)), subnetInfo.
  split; [assumption|]. split; [assumption|].
  assert (Hn : isValidIPv4 (networkAddress subnetInfo) = true)
    by (rewrite En; apply dotted_valid).
  assert (Hb : isValidIPv4 (broadcastAddress subnetInfo) = true)
    by (rewrite Eb; apply dotted_valid).
  assert (F : first (hostRange subnetInfo) = dotted (valueOf (networkAddress subnetInfo) + 1)).
  { rewrite Eh. apply calculateHostRange_first; [assumption|].
    destruct (octetZ_valid _ Hn) as (_ & _ & _ & ->). rewrite Vn, Vm.
    apply even_last_octet, land_prefixMask_even. lia. }
  assert (L : last (hostRange subnetInfo) = dotted (valueOf (broadcastAddress subnetInfo) - 1)).
  { rewrite Eh. apply calculateHostRange_last; [assumption|].
    destruct (octetZ_valid _ Hb) as (_ & _ & _ & ->). rewrite Vb, Vm.
    apply odd_last_octet.
    rewrite complement32_value by (apply prefixMask_range; lia).
    pose proof (land_prefixMask_even (valueOf ip) p ltac:(lia)) as Ev.
    pose proof (pow2_even (32 - p) ltac:(lia)) as Ep.
    unfold prefixMask in *.
    Z.div_mod_to_equations. lia. }
  rewrite F, L. repeat split; apply dotted_valid.
Qed.

Lemma calculate_hostRange_on_prefix_mask_witness :
  exists mask subnetInfo,
    cidrToSubnetMask (Int 24) = Return mask /\
    calculate "192.168.1.77" mask = Return subnetInfo /\
    first (hostRange subnetInfo) = dotted (valueOf (networkAddress subnetInfo) + 1) /\
    last (hostRange subnetInfo) = dotted (valueOf (broadcastAddress subnetInfo) - 1) /\
    isValidIPv4 (first (hostRange subnetInfo)) = true /\
    isValidIPv4 (last (hostRange subnetInfo)) = true.
Proof.
  apply (calculate_hostRange_on_prefix_mask "192.168.1.77" 24); [reflexivity | lia].
Defined.

(** ** isValidCIDR and calculateFromCIDR *)

Lemma split_free (c : ascii) (g : string) : freeOf c g = true -> split c g = [g].
Proof.
  induction g as [|x g IH]; simpl; [reflexivity|].
  intros H. apply andb_true_iff in H as [Hx Hg].
  apply negb_true_iff in Hx. rewrite Hx, (IH Hg). reflexivity.
Qed.

Lemma split_at (c : ascii) (g rest : string) :
  freeOf c g = true -> split c (g ++ String c rest) = g :: split c rest.
Proof.
  induction g as [|x g IH]; simpl.
  - intros _. now rewrite Ascii.eqb_refl.
  - intros H. apply andb_true_iff in H as [Hx Hg].
    apply negb_true_iff in Hx. rewrite Hx, (IH Hg). reflexivity.
Qed.

(** A text is free of the separator, or it is a separator-free head, the
    separator and a rest. *)
Lemma split_cases (c : ascii) (s : string) :
  freeOf c s = true \/
  exists g rest, s = (g ++ String c rest)%string /\ freeOf c g = true.
Proof.
  induction s as [|x s IH]; [now left|].
  destruct (Ascii.eqb_spec x c) as [-> | N].
  - right. exists EmptyString, s. auto.
  - destruct IH as [F | (g & rest & -> & F)].
    + left. cbn [freeOf]. apply Ascii.eqb_neq in N. now rewrite N, F.
    + right. exists (String x g), rest. split; [reflexivity|].
      cbn [freeOf]. apply Ascii.eqb_neq in N. now rewrite N, F.
Qed.

Lemma split_two (c : ascii) (s : string) (a b : string) :
  split c s = [a; b] ->
  s = (a ++ String c b)%string /\ freeOf c a = true /\ freeOf c b = true.
Proof.
  intros E. destruct (split_cases c s) as [F | (g & rest & -> & F)].
  - rewrite split_free in E by assumption. discriminate.
  - rewrite split_at in E by assumption. injection E as <- E.
    destruct (split_cases c rest) as [F' | (g' & rest' & -> & F')].
    + rewrite split_free in E by assumption. injection E as <-. auto.
    + rewrite split_at in E by assumption. injection E as _ E.
      now apply split_nonempty in E.
Qed.

Lemma freeOf_append (c : ascii) (a b : string) :
  freeOf c (a ++ b) = freeOf c a && freeOf c b.
Proof.
  induction a as [|x a IH]; [reflexivity|]. cbn [append freeOf].
  now rewrite IH, andb_assoc.
Qed.

Lemma valid_free_of_slash (ip : string) : isValidIPv4 ip = true -> freeOf "/" ip = true.
Proof.
  intros H. apply isValidIPv4_shape in H as (a & b & c & d & -> & Ha & Hb & Hc & Hd).
  apply pattern_group_facts in Ha as (_ & Fa & _), Hb as (_ & Fb & _),
    Hc as (_ & Fc & _), Hd as (_ & Fd & _).
  unfold dotted4. cbn [freeOf].
  rewrite !freeOf_append. cbn [freeOf]. rewrite !freeOf_append. cbn [freeOf].
  rewrite !freeOf_append. cbn [freeOf].
  now rewrite Fa, Fb, Fc, Fd.
Qed.

Lemma prefix_in_range (prefix : number) :
  negb (isNaN prefix) && ge prefix (Int 0) && le prefix (Int 32) = true <->
  exists p, prefix = Int p /\ 0 <= p <= 32.
Proof.
  split.
  - destruct prefix as [p| | |]; try discriminate.
    unfold isNaN, le, ge, lt, strict_eq. cbn [negb andb].
    intros H. exists p. split; [reflexivity|].
    destruct (Z.ltb_spec 0 p), (Z.eqb_spec p 0), (Z.ltb_spec p 32), (Z.eqb_spec 32 p);
      cbn [orb andb] in H; try discriminate; lia.
  - intros (p & -> & Hp). unfold isNaN, le, ge, lt, strict_eq. cbn [negb andb].
    destruct (Z.ltb_spec 0 p), (Z.eqb_spec p 0), (Z.ltb_spec p 32), (Z.eqb_spec 32 p);
      cbn [orb andb]; try reflexivity; lia.
Qed.

Lemma isValidCIDR_parts (ip prefixStr : string) :
  freeOf "/" ip = true -> freeOf "/" prefixStr = true ->
  isValidCIDR (ip ++ String "/" prefixStr)
  = if negb (isValidIPv4 ip) then false
    else negb (isNaN (parseInt10 prefixStr)) && ge (parseInt10 prefixStr) (Int 0)
         && le (parseInt10 prefixStr) (Int 32).
Proof.
  intros Fi Fp. unfold isValidCIDR.
  rewrite split_at, split_free by assumption. reflexivity.
Qed.

(** X10.  [isValidCIDR] accepts exactly the texts with one slash whose
    part before the slash is a valid address and whose part after it is read
    by [parseInt] as an integer from 0 to 32. *)
Theorem isValidCIDR_iff (cidr : string) :
  isValidCIDR cidr = true <->
  exists ip prefixStr p,
    cidr = (ip ++ "/" ++ prefixStr)%string /\
    isValidIPv4 ip = true /\
    freeOf "/" prefixStr = true /\
    parseInt10 prefixStr = Int p /\ 0 <= p <= 32.
Proof.
  split.
  - intros H. unfold isValidCIDR in H.
    destruct (split "/" cidr) as [|a [|b [|c l]]] eqn:E; try discriminate.
    cbn [List.length Nat.eqb negb nth] in H.
    destruct (isValidIPv4 a) eqn:Ha; [|discriminate]. cbn [negb] in H.
    apply prefix_in_range in H as (p & Ep & Hp).
    apply split_two in E as (-> & Fa & Fb).
    exists a, b, p. auto.
  - intros (ip & prefixStr & p & -> & Hi & Fp & Ep & Hp).
    cbn [append]. rewrite isValidCIDR_parts by first [assumption | apply valid_free_of_slash; assumption].
    rewrite Hi. cbn [negb]. apply prefix_in_range. eauto.
Qed.



Lemma prefixes_print : forallb prefixPrintOk allPrefixes = true.
Proof. vm_compute. reflexivity. Qed.

(** X12.  For a valid address and a prefix p from 1 to 32, the text
    address/p is accepted by [isValidCIDR], and [calculateFromCIDR] on it
    is [calculate] on the address and the mask with the top p bits set: the
    network address is the address under that mask, and the notation
    reported back ends in /p. *)
Theorem calculateFromCIDR_on_prefix (ip : string) (p : Z) :
  isValidIPv4 ip = true -> 1 <= p <= 32 ->
  let cidr := (ip ++ "/" ++ toString (Int p))%string in
  isValidCIDR cidr = true /\
  calculateFromCIDR cidr = Calculated (calculate ip (dotted (prefixMask p))) /\
  exists subnetInfo,
    calculateFromCIDR cidr = Calculated (Return subnetInfo) /\
    networkAddress subnetInfo = dotted (Z.land (valueOf ip) (prefixMask p)) /\
    cidrNotation subnetInfo
    = (networkAddress subnetInfo ++ "/" ++ toString (Int p))%string.
Proof.
  intros Hi Hp cidr.
  pose proof (prefix_cases _ prefixes_print p Hp) as P.
  unfold prefixPrintOk in P. apply andb_true_iff in P as [Fp Ep].
  apply strict_eq_Int in Ep.
  assert (V : isValidCIDR cidr = true).
  { apply isValidCIDR_iff. exists ip, (toString (Int p)), p.
    repeat split; try assumption; lia. }
  assert (C : calculateFromCIDR cidr = Calculated (calculate ip (dotted (prefixMask p)))).
  { unfold calculateFromCIDR. rewrite V. cbn [negb]. unfold cidr. cbn [append].
    rewrite split_at, split_free by first [assumption | apply valid_free_of_slash; assumption].
    cbn [nth]. rewrite Ep, cidrToSubnetMask_positive by assumption. reflexivity. }
  split; [assumption|]. split; [assumption|].
  destruct (prefix_mask_text p Hp) as (_ & Hm & Vm & Ec).
  destruct (calculate_values ip _ Hi Hm) as (subnetInfo & E & En & _).
  exists subnetInfo. rewrite C, E, En, Vm. split; [reflexivity|]. split; [reflexivity|].
  unfold calculate in E. rewrite Hi, Hm, Ec in E. cbn [negb bind] in E.
  injection E as <-. cbn [cidrNotation networkAddress].
  rewrite calculateNetworkAddress_valid, Vm by assumption. reflexivity.
Qed.

Lemma calculateFromCIDR_on_prefix_witness :
  isValidCIDR "192.168.1.77/24" = true /\
  calculateFromCIDR "192.168.1.77/24"
  = Calculated (calculate "192.168.1.77" (dotted (prefixMask 24))) /\
  exists subnetInfo,
    calculateFromCIDR "192.168.1.77/24" = Calculated (Return subnetInfo) /\
    networkAddress subnetInfo = dotted (Z.land (valueOf "192.168.1.77") (prefixMask 24)) /\
    cidrNotation subnetInfo
    = (networkAddress subnetInfo ++ "/" ++ toString (Int 24))%string.
Proof. apply (calculateFromCIDR_on_prefix "192.168.1.77" 24); [reflexivity | lia]. Defined.

(** ** addToIP *)





(** X14.  Two offsets in a row are one offset by the sum, as long as the
    offsets and their sum stay below 2^53 - 2^31 in magnitude; the offset 0
    gives the address back in canonical form. *)
Theorem addToIP_composes (ip : string) (a b : Z) :
  isValidIPv4 ip = true ->
  Z.abs a < 2 ^ 53 - 2 ^ 31 -> Z.abs b < 2 ^ 53 - 2 ^ 31 ->
  Z.abs (a + b) < 2 ^ 53 - 2 ^ 31 ->
  (text <- addToIP ip (Int a) ;; addToIP text (Int b)) = addToIP ip (Int (a + b)) /\
  addToIP ip (Int 0) = Return (dotted (valueOf ip)).
Proof.
  intros H Ha Hb Hab. split.
  - rewrite !addToIP_small by (try assumption; lia). cbn [bind].
    rewrite addToIP_small by (try apply dotted_valid; lia).
    f_equal. apply dotted_mod. rewrite valueOf_dotted.
    rewrite Z.add_mod_idemp_l by lia. f_equal. lia.
  - rewrite addToIP_small by (try assumption; lia). now rewrite Z.add_0_r.
Qed.

Lemma addToIP_composes_witness :
  (text <- addToIP "10.0.0.250" (Int 10) ;; addToIP text (Int (-300)))
  = addToIP "10.0.0.250" (Int (10 + -300)) /\
  addToIP "10.0.0.250" (Int 0) = Return (dotted (valueOf "10.0.0.250")).
Proof.
  apply (addToIP_composes "10.0.0.250" 10 (-300));
    [reflexivity | vm_compute; reflexivity..].
Defined.

(** ** ipDifference *)





(** ** subnetMaskToCIDR and cidrToSubnetMask *)

(** X16.  [subnetMaskToCIDR] throws on exactly the invalid texts; on a
    valid one its loops end and the count it returns lies between 0 and
    32. *)
Theorem subnetMaskToCIDR_outcome (mask : string) :
  (isValidIPv4 mask = false /\
   subnetMaskToCIDR mask = Throw (InvalidSubnetMask mask))
  \/ (isValidIPv4 mask = true /\
      exists cidr, subnetMaskToCIDR mask = Return cidr /\ 0 <= cidr <= 32).
Proof.
  destruct (isValidIPv4 mask) eqn:H.
  - right. split; [reflexivity|]. eexists. split.
    + now apply subnetMaskToCIDR_valid.
    + apply (subnetMaskToCIDR_range mask). now apply subnetMaskToCIDR_valid.
  - left. split; [reflexivity|]. unfold subnetMaskToCIDR. now rewrite H.
Qed.

(** X17.  [cidrToSubnetMask] on every integer: it throws below 0 and
    above 32; at 0 it returns the all-ones mask; from 1 to 32 it returns a
    valid address text whose 32-bit value has exactly its top p bits set,
    and [subnetMaskToCIDR] maps that text back to p. *)
Theorem cidrToSubnetMask_outcome (p : Z) :
  ((p < 0 \/ 32 < p) /\ cidrToSubnetMask (Int p) = Throw (InvalidCIDRPrefix (Int p)))
  \/ (p = 0 /\ cidrToSubnetMask (Int p) = Return "255.255.255.255")
  \/ (1 <= p <= 32 /\
      exists mask,
        cidrToSubnetMask (Int p) = Return mask /\
        isValidIPv4 mask = true /\
        (forall j, 0 <= j < 32 -> Z.testbit (valueOf mask) j = (32 - p <=? j)) /\
        subnetMaskToCIDR mask = Return p).
Proof.
  destruct (Z.lt_ge_cases p 0); [left|].
  - split; [lia|]. apply cidrToSubnetMask_out_of_range. lia.
  - destruct (Z.lt_ge_cases 32 p); [left|right; destruct (Z.eq_dec p 0) as [-> | N]].
    + split; [lia|]. apply cidrToSubnetMask_out_of_range. lia.
    + left. split; reflexivity.
    + right. split; [lia|].
      destruct (prefix_mask_text p ltac:(lia)) as (Em & Hm & Vm & Ec).
      exists (dotted (prefixMask p)). repeat (split; [assumption|]).
      split; [|assumption]. intros j Hj. rewrite Vm. apply prefixMask_bits; lia.
Qed.

(** ** calculateSubnetMaskFromHostCount *)

(** X18.  For a host count h from 1 to 2^31 - 2,
    [calculateSubnetMaskFromHostCount] returns the mask of a prefix p from 1
    to 30 whose block has room for h hosts beside the network and the
    broadcast address, while the block of the next longer prefix has not. *)
Theorem calculateSubnetMaskFromHostCount_fits (h : Z) :
  1 <= h <= 2 ^ 31 - 2 ->
  exists p,
    1 <= p <= 30 /\
    calculateSubnetMaskFromHostCount (Int h) = Return (dotted (prefixMask p)) /\
    h <= 2 ^ (32 - p) - 2 /\
    2 ^ (32 - (p + 1)) - 2 < h.
Proof.
  intros Hh.
  assert (L2 : Z.log2_up 3 <= Z.log2_up (h + 2)) by (apply Z.log2_up_le_mono; lia).
  assert (L31 : Z.log2_up (h + 2) <= Z.log2_up (2 ^ 31)) by (apply Z.log2_up_le_mono; lia).
  change (Z.log2_up 3) with 2 in L2. change (Z.log2_up (2 ^ 31)) with 31 in L31.
  destruct (Z.log2_up_spec (h + 2) ltac:(lia)) as [Lo Hi].
  exists (32 - Z.log2_up (h + 2)). split; [lia|].
  destruct (calculateSubnetMaskFromHostCount_cases h ltac:(lia))
    as [[N _] | [[Z0 _] | [_ E]]]; try lia.
  split; [exact E|].
  replace (32 - (32 - Z.log2_up (h + 2))) with (Z.log2_up (h + 2)) by lia.
  replace (32 - (32 - Z.log2_up (h + 2) + 1)) with (Z.pred (Z.log2_up (h + 2))) by lia.
  lia.
Qed.

Lemma calculateSubnetMaskFromHostCount_fits_witness :
  exists p,
    1 <= p <= 30 /\
    calculateSubnetMaskFromHostCount (Int 1000) = Return (dotted (prefixMask p)) /\
    1000 <= 2 ^ (32 - p) - 2 /\
    2 ^ (32 - (p + 1)) - 2 < 1000.
Proof. apply (calculateSubnetMaskFromHostCount_fits 1000). vm_compute. split; discriminate. Defined.

(** X19.  A host count above 2^32 - 2 is refused with the capacity
    error. *)
Theorem calculateSubnetMaskFromHostCount_too_large (h : Z) :
  2 ^ 32 - 2 < h ->
  calculateSubnetMaskFromHostCount (Int h) = Throw HostCountTooLarge.
Proof.
  intros Hh.
  assert (L : Z.log2_up (2 ^ 32 + 1) <= Z.log2_up (h + 2))
    by (apply Z.log2_up_le_mono; lia).
  change (Z.log2_up (2 ^ 32 + 1)) with 33 in L.
  destruct (calculateSubnetMaskFromHostCount_cases h ltac:(lia))
    as [[_ E] | [[Z0 _] | [R _]]]; [exact E | lia | lia].
Qed.

Lemma calculateSubnetMaskFromHostCount_too_large_witness :
  calculateSubnetMaskFromHostCount (Int 4294967295) = Throw HostCountTooLarge.
Proof.
  apply (calculateSubnetMaskFromHostCount_too_large 4294967295). vm_compute. reflexivity.
Defined.

(** ** calculateSubnets *)

Lemma expected_members_adjacent (base size i : Z) :
  valueOf (subnetAddress (expectedMember base size (i + 1)))
  = (valueOf (sdBroadcastAddress (expectedMember base size i)) + 1) mod 2 ^ 32.
Proof.
  cbn [expectedMember subnetAddress sdBroadcastAddress].
  rewrite !valueOf_dotted, !Z.mod_mod by lia.
  rewrite Z.add_mod_idemp_l by lia.
  rewrite <- Z.add_assoc, Z.add_mod_idemp_l by lia. f_equal. lia.
Qed.

(** X20.  In a successful partition the members follow one another
    without a gap: the network address of member i + 1 is the broadcast
    address of member i plus one (modulo 2^32). *)
Theorem calculateSubnets_members_adjacent (ip mask : string) (cidr n : Z) :
  isValidIPv4 ip = true ->
  subnetMaskToCIDR mask = Return cidr ->
  1 <= n -> cidr + Z.log2_up n <= 30 ->
  exists result,
    calculateSubnets ip mask (Int n) = Return result /\
    forall i, 0 <= i -> i + 1 < 2 ^ Z.log2_up n ->
      exists member next,
        nth_error (subnetDetails result) (Z.to_nat i) = Some member /\
        nth_error (subnetDetails result) (Z.to_nat (i + 1)) = Some next /\
        valueOf (subnetAddress next)
        = (valueOf (sdBroadcastAddress member) + 1) mod 2 ^ 32.
Proof.
  intros Hip Ec Hn Hb.
  pose proof (subnetMaskToCIDR_Return_valid _ _ Ec) as Hm.
  destruct (calculateSubnets_partition ip mask cidr n Hip Hm Ec Hn Hb)
    as (subnetInfo & _ & E).
  eexists. split; [exact E|]. cbn [subnetDetails].
  intros i Hi Hi1. do 2 eexists.
  rewrite !nth_error_map, !nth_error_indicesFrom by lia. cbn [option_map].
  split; [reflexivity|]. split; [reflexivity|].
  rewrite !Z2Nat.id by lia. cbn [Z.add]. apply expected_members_adjacent.
Qed.

Lemma calculateSubnets_members_adjacent_witness :
  exists result,
    calculateSubnets "10.0.0.0" "255.255.0.0" (Int 4) = Return result /\
    forall i, 0 <= i -> i + 1 < 2 ^ Z.log2_up 4 ->
      exists member next,
        nth_error (subnetDetails result) (Z.to_nat i) = Some member /\
        nth_error (subnetDetails result) (Z.to_nat (i + 1)) = Some next /\
        valueOf (subnetAddress next)
        = (valueOf (sdBroadcastAddress member) + 1) mod 2 ^ 32.
Proof.
  apply (calculateSubnets_members_adjacent "10.0.0.0" "255.255.0.0" 16 4);
    [reflexivity | reflexivity | lia | vm_compute; discriminate].
Defined.

Lemma land_le_mask (v m : Z) : 0 <= v < 2 ^ 32 -> 0 <= m < 2 ^ 32 -> Z.land v m <= m.
Proof.
  intros Hv Hm.
  destruct (split_by_mask v (complement32 m) Hv) as (_ & _ & [_ H]).
  assert (E : complement32 (complement32 m) = m).
  { rewrite (complement32_value m Hm).
    rewrite complement32_value by lia. lia. }
  now rewrite E in H.
Qed.

(** X21.  When the address is the network address of the block of a
    prefix p (no bit outside the mask of p), a successful partition into
    2^b members covers the block exactly and in order, without wrapping:
    member i spans  base + i * size  to  base + (i + 1) * size - 1  with
    size = 2^(32 - p - b), the first member starts at the network address and
    the last one ends at the broadcast address that [calculate] reports. *)
Theorem calculateSubnets_covers_block (ip : string) (p n : Z) :
  isValidIPv4 ip = true ->
  1 <= p ->
  Z.land (valueOf ip) (prefixMask p) = valueOf ip ->
  1 <= n -> p + Z.log2_up n <= 30 ->
  let count := 2 ^ Z.log2_up n in
  let size := 2 ^ (32 - (p + Z.log2_up n)) in
  exists result,
    calculateSubnets ip (dotted (prefixMask p)) (Int n) = Return result /\
    valueOf (networkAddress (info result)) = valueOf ip /\
    valueOf (broadcastAddress (info result)) = valueOf ip + count * size - 1 /\
    forall i, 0 <= i < count ->
      exists member,
        nth_error (subnetDetails result) (Z.to_nat i) = Some member /\
        valueOf (subnetAddress member) = valueOf ip + i * size /\
        valueOf (sdBroadcastAddress member) = valueOf ip + (i + 1) * size - 1.
Proof.
  intros Hip Hp Al Hn Hb count size.
  pose proof (Z.log2_up_nonneg n) as Hl.
  destruct (prefix_mask_text p ltac:(lia)) as (_ & Hm & Vm & Ec).
  destruct (calculateSubnets_partition ip _ p n Hip Hm Ec Hn Hb)
    as (subnetInfo & Ecalc & E).
  destruct (calculate_values ip _ Hip Hm) as (s' & Ecalc' & _ & _ & Vn & Vb & _).
  rewrite Ecalc in Ecalc'. injection Ecalc' as <-.
  eexists. split; [exact E|]. cbn [info subnetDetails].
  pose proof (valueOf_range ip Hip) as Ri.
  pose proof (prefixMask_range p ltac:(lia)) as Rm.
  pose proof (land_le_mask _ _ Ri Rm) as Le. rewrite Al in Le.
  assert (Hcs : count * size = 2 ^ (32 - p)).
  { unfold count, size. rewrite <- Z.pow_add_r by lia. f_equal. lia. }
  assert (0 < size) by (apply Z.pow_pos_nonneg; lia).
  assert (0 < count) by (apply Z.pow_pos_nonneg; lia).
  assert (Top : valueOf ip + count * size <= 2 ^ 32)
    by (rewrite Hcs; unfold prefixMask in Le; lia).
  rewrite Vn, Vb, Vm, Al, complement32_value by assumption.
  split; [reflexivity|]. split; [rewrite Hcs; unfold prefixMask; lia|].
  intros i Hi. eexists.
  rewrite nth_error_map, nth_error_indicesFrom by lia. cbn [option_map].
  split; [reflexivity|].
  rewrite Z2Nat.id by lia. cbn [Z.add expectedMember subnetAddress sdBroadcastAddress].
  fold size. rewrite !valueOf_dotted, !Z.mod_mod by lia.
  assert (i * size + size <= count * size) by nia.
  assert (0 <= i * size) by nia.
  rewrite (Z.mod_small (valueOf ip + i * size)) by lia.
  split; [reflexivity|]. rewrite Z.mod_small by lia. lia.
Qed.

Lemma calculateSubnets_covers_block_witness :
  exists result,
    calculateSubnets "10.0.0.0" (dotted (prefixMask 16)) (Int 4) = Return result /\
    valueOf (networkAddress (info result)) = valueOf "10.0.0.0" /\
    valueOf (broadcastAddress (info result)) = valueOf "10.0.0.0" + 4 * 16384 - 1 /\
    forall i, 0 <= i < 4 ->
      exists member,
        nth_error (subnetDetails result) (Z.to_nat i) = Some member /\
        valueOf (subnetAddress member) = valueOf "10.0.0.0" + i * 16384 /\
        valueOf (sdBroadcastAddress member) = valueOf "10.0.0.0" + (i + 1) * 16384 - 1.
Proof.
  apply (calculateSubnets_covers_block "10.0.0.0" 16 4);
    [reflexivity | lia | reflexivity | lia | vm_compute; discriminate].
Defined.




